(** * Greenlight request-admission middleware (cmd/api/middleware.go)

    A shallow embedding of the middleware chain of the API server:
    panic recovery, per-client rate limiting with its background sweeper,
    bearer-token authentication, the authorization guards, CORS and the
    metrics collector.  A handler is a function from a request and a state
    to a run: the calls it made on its [http.ResponseWriter] and on the
    external collaborators, in order, the state it left, and the way it
    ended. *)

From Stdlib Require Import ZArith QArith Lqa String Ascii List DecimalString.
From Stdlib Require DecimalPos DecimalZ.
From stdpp Require Import gmap strings list fin_maps.

Open Scope Z_scope.
Open Scope string_scope.
Open Scope list_scope.

(** ** Data model *)

(** [data.User], with the two fields the middleware reads. *)
Record User := { ID : Z; Activated : bool }.

(** Modelled from the spec: internal/data is not among the sources.  The
    identity attached to a request is the anonymous sentinel
    ([data.AnonymousUser]) or an authenticated user. *)
Inductive identity :=
| AnonymousUser
| Authenticated (u : User).

(** [user.IsAnonymous()]: comparison with the sentinel. *)
Definition IsAnonymous (i : identity) : bool :=
  match i with AnonymousUser => true | Authenticated _ => false end.

(** The fields seen through the [*data.User] of an identity; the sentinel is
    the zero [User]. *)
Definition fields (i : identity) : User :=
  match i with
  | AnonymousUser => {| ID := 0; Activated := false |}
  | Authenticated u => u
  end.

(** [data.Permissions], a slice of permission codes, with [Include]. *)
Definition Permissions := list string.

Definition Include (p : Permissions) (code : string) : bool :=
  existsb (String.eqb code) p.

(** Errors returned by the collaborators; [errors.Is] looks through
    wrapping. *)
Inductive error :=
| ErrRecordNotFound
| ErrOther (msg : string)
| ErrWrap (msg : string) (inner : error).

Fixpoint errors_Is_ErrRecordNotFound (e : error) : bool :=
  match e with
  | ErrRecordNotFound => true
  | ErrOther _ => false
  | ErrWrap _ inner => errors_Is_ErrRecordNotFound inner
  end.

Fixpoint Error (e : error) : string :=
  match e with
  | ErrRecordNotFound => "record not found"
  | ErrOther msg => msg
  | ErrWrap msg inner => (msg ++ ": " ++ Error inner)%string
  end.

(** [http.Header]: canonical header name to its values. *)
Abbreviation Header := (gmap string (list string)).

(** [Header.Get]: the first value, or the empty string when there is none. *)
Definition Header_Get (h : Header) (key : string) : string :=
  match h !! key with
  | Some (v :: _) => v
  | _ => ""
  end.

(** [*http.Request]: method, headers, and the user value of its context. *)
Record request := {
  Method : string;
  Headers : Header;
  ctxUser : option identity
}.

(** [http.MethodOptions]. *)
Definition MethodOptions : string := "OPTIONS".

(** [data.ScopeAuthentication].  Modelled from the spec: internal/data is
    not among the sources; the value is the name the spec gives the scope. *)
Definition ScopeAuthentication : string := "authentication".

(** [app.contextSetUser]: a copy of the request with the identity attached. *)
Definition contextSetUser (r : request) (i : identity) : request :=
  {| Method := Method r; Headers := Headers r; ctxUser := Some i |}.

(** [strings.Split(s, " ")]: the pieces of [s] between single spaces; a
    string without a space is one piece, the empty string too. *)
Fixpoint Split (s : string) : list string :=
  match s with
  | EmptyString => [EmptyString]
  | String c rest =>
      if Ascii.eqb c " "%char then EmptyString :: Split rest
      else match Split rest with
           | [] => [String c EmptyString]
           | p :: ps => String c p :: ps
           end
  end.




(** [strconv.Itoa]. *)
Definition Itoa (n : Z) : string := NilZero.string_of_int (Z.to_int n).

(** ** Runs of a handler *)

(** What follows the message in a log call: a value, or the bytes that
    [runtime.Stack] left in the buffer (the dump of the current goroutine,
    cut at 4096 bytes), whose content is not followed. *)
Inductive logarg :=
| LogValue (v : string)
| LogStack.

(** What a handler does to the outside, in program order: the methods it
    calls on the response writer, the collaborator calls, the log. *)
Inductive event :=
| HeaderAdd (key value : string)        (* w.Header().Add(key, value) *)
| HeaderSet (key value : string)        (* w.Header().Set(key, value) *)
| WriteHeader (code : Z)                (* w.WriteHeader(code) *)
| WriteBytes (b : string)               (* w.Write(b) *)
| GetForToken (scope token : string)    (* app.models.Users.GetForToken *)
| GetAllForUser (id : Z)                (* app.models.Permissions.GetAllForUser *)
| LogError (msg : string) (args : list logarg).
                                        (* app.logger.Error(msg, args...) *)

(** How a call ends: it returns, it panics with a value, or its goroutine
    parks for ever on [mu.Lock()]. *)
Inductive result (A : Type) :=
| Val (a : A)
| Panicked (v : string)
| Blocked.

Arguments Val {A} a.
Arguments Panicked {A} v.
Arguments Blocked {A}.

Record run (S A : Type) := Run {
  trace : list event;
  final : S;
  out : result A
}.

Arguments Run {S A} trace final out.
Arguments trace {S A} r.
Arguments final {S A} r.
Arguments out {S A} r.

(** State, trace and abrupt ending, threaded through a computation. *)
Definition M (S A : Type) : Type := S -> run S A.

Definition ret {S A} (a : A) : M S A := fun s => Run [] s (Val a).

Definition bind {S A B} (m : M S A) (k : A -> M S B) : M S B := fun s =>
  let r := m s in
  match out r with
  | Val a => let r' := k a (final r) in
             Run (trace r ++ trace r') (final r') (out r')
  | Panicked v => Run (trace r) (final r) (Panicked v)
  | Blocked => Run (trace r) (final r) Blocked
  end.

Definition emit {S} (e : event) : M S unit := fun s => Run [e] s (Val tt).
Definition get {S} : M S S := fun s => Run [] s (Val s).
Definition panic {S A} (v : string) : M S A := fun s => Run [] s (Panicked v).

#[export] Instance M_ret {S} : MRet (M S) := fun A a => ret a.
#[export] Instance M_bind {S} : MBind (M S) := fun A B k m => bind m k.

(** [http.Handler]: [ServeHTTP(w, r)] in a state of type [S]. *)
Definition Handler (S : Type) : Type := request -> M S unit.

(** Running a callee on a component of the state (a closure's captured
    variables next to the state of what it wraps). *)
Definition inner {P S A} (m : M S A) : M (P * S) A := fun ps =>
  let r := m ps.2 in Run (trace r) (ps.1, final r) (out r).

(** [defer func() { if err := recover(); err != nil { ... } }()] around a
    body: a panic of the body is stopped and the deferred code runs; a
    body that returns (or never returns) is left as it is. *)
Definition recover {S} (body : M S unit) (deferred : string -> M S unit) : M S unit :=
  fun s =>
    let r := body s in
    match out r with
    | Panicked err =>
        let r' := deferred err (final r) in
        Run (trace r ++ trace r') (final r') (out r')
    | _ => r
    end.

(** ** The outside world *)

(** What the middleware reads from its environment: the clock
    ([time.Now], nanoseconds on the monotonic clock) and the answers of the
    persistence layer behind [app.models]. *)
Class World (S : Type) := {
  time_Now : S -> Z;
  Users_answer : S -> string -> string -> User + error;
  Permissions_answer : S -> Z -> Permissions + error
}.

Definition now {S} `{!World S} : M S Z := fun s => Run [] s (Val (time_Now s)).

(** [app.models.Users.GetForToken(scope, token)]. *)
Definition Users_GetForToken {S} `{!World S} (scope token : string) : M S (User + error) :=
  fun s => Run [GetForToken scope token] s (Val (Users_answer s scope token)).

(** [app.models.Permissions.GetAllForUser(id)]. *)
Definition Permissions_GetAllForUser {S} `{!World S} (id : Z) : M S (Permissions + error) :=
  fun s => Run [GetAllForUser id] s (Val (Permissions_answer s id)).

(** ** Error responses *)

(** Modelled from the spec: cmd/api/errors.go is not among the sources.
    Each helper commits the status code that section 6 of the spec gives it
    and writes a body naming the reason; the server-error helper logs the
    error first (section 7), its text being the message of the log call. *)
Definition StatusOK : Z := 200.
Definition StatusUnauthorized : Z := 401.
Definition StatusForbidden : Z := 403.
Definition StatusTooManyRequests : Z := 429.
Definition StatusInternalServerError : Z := 500.

Definition errorResponse {S} (status : Z) (message : string) : M S unit :=
  emit (WriteHeader status);; emit (WriteBytes message).

Definition serverErrorResponse {S} (err : string) : M S unit :=
  emit (LogError err []);;
  errorResponse StatusInternalServerError
    "the server encountered a problem and could not process your request".

Definition rateLimitExceededResponse {S} : M S unit :=
  errorResponse StatusTooManyRequests "rate limit exceeded".

Definition invalidAuthenticationTokenResponse {S} : M S unit :=
  errorResponse StatusUnauthorized "invalid or missing authentication token".

Definition authenticationRequiredResponse {S} : M S unit :=
  errorResponse StatusUnauthorized "you must be authenticated to access this resource".

Definition inactiveAccountResponse {S} : M S unit :=
  errorResponse StatusForbidden
    "your user account must be activated to access this resource".

Definition notPermittedResponse {S} : M S unit :=
  errorResponse StatusForbidden
    "your user account doesn't have the necessary permissions to access this resource".

(** The status line that goes out for a trace of writer calls: the first
    [WriteHeader] decides, and body bytes written before any [WriteHeader]
    commit 200 (net/http). *)
Fixpoint committed (es : list event) : option Z :=
  match es with
  | [] => None
  | WriteHeader code :: _ => Some code
  | WriteBytes _ :: _ => Some StatusOK
  | _ :: rest => committed rest
  end.

(** A run that follows some calls already made. *)
Definition after {S A} (es : list event) (res : run S A) : run S A :=
  Run (es ++ trace res) (final res) (out res).

(** Modelled from the spec: cmd/api/context.go is not among the sources.
    The spec has exactly one identity attached to every request that reaches
    a guard; a request without one has nothing to return, which the model
    makes a panic. *)
Definition contextGetUser {S} (r : request) : M S identity :=
  match ctxUser r with
  | Some i => mret i
  | None => panic "missing user value in request context"
  end.

(** ** recoverPanic *)

Definition recoverPanic {S} (next : Handler S) : Handler S := fun r =>
  recover (next r) (fun err =>
    emit (LogError "err" [LogValue err; LogValue "stack"; LogStack]);;
    emit (HeaderSet "Connection" "close");;
    serverErrorResponse err).

(** ** authenticate *)

Section Authenticate.
Context {S : Type} `{!World S}.

(** [data.ValidateTokenPlaintext(v, token); v.Valid()]: the shape check
    of internal/data, which is not among the sources. *)
Variable ValidateTokenPlaintext : string -> bool.

Definition authenticate (next : Handler S) : Handler S := fun r =>
  emit (HeaderAdd "Vary" "Authorization");;
  let authorizationHeader := Header_Get (Headers r) "Authorization" in
  if String.eqb authorizationHeader "" then
    next (contextSetUser r AnonymousUser)
  else
    let headerParts := Split authorizationHeader in
    if negb (Nat.eqb (length headerParts) 2)
       || negb (String.eqb (nth 0 headerParts "") "Bearer")
    then invalidAuthenticationTokenResponse
    else
      let token := nth 1 headerParts "" in
      if negb (ValidateTokenPlaintext token) then
        invalidAuthenticationTokenResponse
      else
        res ← Users_GetForToken ScopeAuthentication token;
        match res with
        | inr err =>
            if errors_Is_ErrRecordNotFound err
            then invalidAuthenticationTokenResponse
            else serverErrorResponse (Error err)
        | inl user => next (contextSetUser r (Authenticated user))
        end.
End Authenticate.

(** ** The authorization guards *)

Section Guards.
Context {S : Type} `{!World S}.

Definition requireAuthenticatedUser (next : Handler S) : Handler S := fun r =>
  user ← contextGetUser r;
  if IsAnonymous user then authenticationRequiredResponse
  else next r.

Definition requireActivatedUser (next : Handler S) : Handler S :=
  let fn : Handler S := fun r =>
    user ← contextGetUser r;
    if negb (Activated (fields user)) then inactiveAccountResponse
    else next r in
  requireAuthenticatedUser fn.

Definition requirePermission (code : string) (next : Handler S) : Handler S :=
  let fn : Handler S := fun r =>
    user ← contextGetUser r;
    res ← Permissions_GetAllForUser (ID (fields user));
    match res with
    | inr err => serverErrorResponse (Error err)
    | inl permissions =>
        if negb (Include permissions code) then notPermittedResponse
        else next r
    end in
  requireActivatedUser fn.
End Guards.

(** ** enableCORS *)

Section CORS.
Context {S : Type}.

(** [app.config.cors.trustedOrigins]. *)
Variable trustedOrigins : list string.

(** The loop over the trusted origins; [true] when the body returned from
    the handler (the preflight answer), [false] when the loop ended or was
    left by [break]. *)
Fixpoint enableCORS_loop (r : request) (origin : string)
    (origins : list string) : M S bool :=
  match origins with
  | [] => mret false
  | trusted :: rest =>
      if String.eqb origin trusted then
        emit (HeaderSet "Access-Control-Allow-Origin" origin);;
        if String.eqb (Method r) MethodOptions
           && negb (String.eqb
                      (Header_Get (Headers r) "Access-Control-Request-Method") "")
        then
          emit (HeaderSet "Access-Control-Allow-Methods"
                          "OPTIONS, PUT, PATCH, DELETE");;
          emit (HeaderSet "Access-Control-Allow-Headers"
                          "Authorization, Content-Type");;
          emit (WriteHeader StatusOK);;
          mret true
        else mret false
      else enableCORS_loop r origin rest
  end.

Definition enableCORS (next : Handler S) : Handler S := fun r =>
  emit (HeaderAdd "Vary" "Origin");;
  emit (HeaderAdd "Vary" "Access-Control-Request-Method");;
  let origin := Header_Get (Headers r) "Origin" in
  returned ← (if negb (String.eqb origin "")
              then enableCORS_loop r origin trustedOrigins
              else mret false);
  if returned : bool then mret tt else next r.
End CORS.

(** ** metrics *)

(** [metricsResponseWriter].  Its [wrapped] field is the writer of the
    enclosing handler: a call forwarded to it is a call in the trace. *)
Record metricsResponseWriter := {
  statusCode : Z;
  headerWritten : bool
}.

Definition newMetricsResponseWriter : metricsResponseWriter :=
  {| statusCode := StatusOK; headerWritten := false |}.

(** The methods: the call made on [wrapped], and the writer afterwards.
    [Header()] hands out the wrapped header map, so header calls pass
    through untouched. *)
Definition mw_WriteHeader (code : Z) (mw : metricsResponseWriter)
  : event * metricsResponseWriter :=
  (WriteHeader code,
   if headerWritten mw then mw
   else {| statusCode := code; headerWritten := true |}).

Definition mw_Write (b : string) (mw : metricsResponseWriter)
  : event * metricsResponseWriter :=
  (WriteBytes b, {| statusCode := statusCode mw; headerWritten := true |}).

Definition mw_call (e : event) (mw : metricsResponseWriter)
  : event * metricsResponseWriter :=
  match e with
  | WriteHeader code => mw_WriteHeader code mw
  | WriteBytes b => mw_Write b mw
  | _ => (e, mw)
  end.

(** The calls of a handler that was given [mw] as its writer. *)
Fixpoint mw_calls (es : list event) (mw : metricsResponseWriter)
  : list event * metricsResponseWriter :=
  match es with
  | [] => ([], mw)
  | e :: rest =>
      let '(e', mw1) := mw_call e mw in
      let '(es', mw2) := mw_calls rest mw1 in
      (e' :: es', mw2)
  end.

(** [next.ServeHTTP(mw, r)]: the writer is returned when the call returns. *)
Definition ServeHTTP_mw {S} (next : Handler S) (mw : metricsResponseWriter)
    (r : request) : M S metricsResponseWriter := fun s =>
  let res := next r s in
  let '(es, mw') := mw_calls (trace res) mw in
  Run es (final res)
      match out res with
      | Val _ => Val mw'
      | Panicked v => Panicked v
      | Blocked => Blocked
      end.

(** [expvar.Int] holds an int64; [Add] wraps around. *)
Definition wrap64 (z : Z) : Z := (z + 2 ^ 63) mod 2 ^ 64 - 2 ^ 63.

(** The four published variables of the [metrics] closure. *)
Record metricsVars := {
  totalRequestsReceived : Z;
  totalResponsesSent : Z;
  totalProcessingTimeMicroseconds : Z;
  totalResponsesSentByStatus : gmap string Z
}.

(** [expvar.NewInt], [expvar.NewMap]: all zero, no key. *)
Definition newMetricsVars : metricsVars :=
  {| totalRequestsReceived := 0; totalResponsesSent := 0;
     totalProcessingTimeMicroseconds := 0; totalResponsesSentByStatus := ∅ |}.

(** [expvar.Map.Add(key, delta)]: a missing key starts from zero. *)
Definition expvar_Map_Add (key : string) (delta : Z) (m : gmap string Z)
  : gmap string Z :=
  <[key := wrap64 (default 0 (m !! key) + delta)]> m.

Definition add_totalRequestsReceived (d : Z) (v : metricsVars) : metricsVars :=
  {| totalRequestsReceived := wrap64 (totalRequestsReceived v + d);
     totalResponsesSent := totalResponsesSent v;
     totalProcessingTimeMicroseconds := totalProcessingTimeMicroseconds v;
     totalResponsesSentByStatus := totalResponsesSentByStatus v |}.

Definition add_totalResponsesSent (d : Z) (v : metricsVars) : metricsVars :=
  {| totalRequestsReceived := totalRequestsReceived v;
     totalResponsesSent := wrap64 (totalResponsesSent v + d);
     totalProcessingTimeMicroseconds := totalProcessingTimeMicroseconds v;
     totalResponsesSentByStatus := totalResponsesSentByStatus v |}.

Definition add_totalProcessingTimeMicroseconds (d : Z) (v : metricsVars)
  : metricsVars :=
  {| totalRequestsReceived := totalRequestsReceived v;
     totalResponsesSent := totalResponsesSent v;
     totalProcessingTimeMicroseconds :=
       wrap64 (totalProcessingTimeMicroseconds v + d);
     totalResponsesSentByStatus := totalResponsesSentByStatus v |}.

Definition add_totalResponsesSentByStatus (key : string) (d : Z)
    (v : metricsVars) : metricsVars :=
  {| totalRequestsReceived := totalRequestsReceived v;
     totalResponsesSent := totalResponsesSent v;
     totalProcessingTimeMicroseconds := totalProcessingTimeMicroseconds v;
     totalResponsesSentByStatus :=
       expvar_Map_Add key d (totalResponsesSentByStatus v) |}.

(** A step on the captured variables of a closure. *)
Definition captured {P S} (f : P -> P) : M (P * S) unit := fun ps =>
  Run [] (f ps.1, ps.2) (Val tt).

(** [Duration.Microseconds()]: nanoseconds to microseconds, truncated. *)
Definition Microseconds (d : Z) : Z := Z.quot d 1000.

Section Metrics.
Context {S : Type} `{!World S}.

Definition metrics (next : Handler S) : Handler (metricsVars * S) := fun r =>
  start ← inner now;
  captured (add_totalRequestsReceived 1);;
  let mw := newMetricsResponseWriter in
  mw ← inner (ServeHTTP_mw next mw r);
  captured (add_totalResponsesSent 1);;
  captured (add_totalResponsesSentByStatus (Itoa (statusCode mw)) 1);;
  finish ← inner now;
  let duration := Microseconds (finish - start) in
  captured (add_totalProcessingTimeMicroseconds duration).
End Metrics.

(** The sum of the counters of an [expvar.Map]. *)
Definition total (m : gmap string Z) : Z :=
  map_fold (fun _ v acc => v + acc) 0 m.

(** The atomic operations of the metrics stage on its published variables.
    Requests served at the same time interleave them. *)
Inductive expvar_op :=
| AddReceived                 (* totalRequestsReceived.Add(1) *)
| AddSent                     (* totalResponsesSent.Add(1) *)
| AddByStatus (code : Z)      (* totalResponsesSentByStatus.Add(Itoa(code), 1) *)
| AddTime (d : Z).            (* totalProcessingTimeMicroseconds.Add(d in μs) *)

Definition apply_op (m : metricsVars) (o : expvar_op) : metricsVars :=
  match o with
  | AddReceived => add_totalRequestsReceived 1 m
  | AddSent => add_totalResponsesSent 1 m
  | AddByStatus code => add_totalResponsesSentByStatus (Itoa code) 1 m
  | AddTime d => add_totalProcessingTimeMicroseconds (Microseconds d) m
  end.

(** The operations of one request that returned with status [code] after
    [d] nanoseconds, in program order. *)
Definition request_ops (cd : Z * Z) : list expvar_op :=
  [AddReceived; AddSent; AddByStatus cd.1; AddTime cd.2].

(** The variables of the metrics closure after such a request. *)
Definition counted (code d : Z) (m : metricsVars) : metricsVars :=
  fold_left apply_op (request_ops (code, d)) m.

(** How many operations of a list touch the received counter, the sent
    counter, the per-status counters. *)
Fixpoint op_counts (ops : list expvar_op) : Z * Z * Z :=
  match ops with
  | [] => (0, 0, 0)
  | o :: rest =>
      let '(kr, ks, kb) := op_counts rest in
      match o with
      | AddReceived => (kr + 1, ks, kb)
      | AddSent => (kr, ks + 1, kb)
      | AddByStatus _ => (kr, ks, kb + 1)
      | AddTime _ => (kr, ks, kb)
      end
  end.

(** The counters after [kr] requests came in and [ks] of them went out. *)
Definition consistent (kr ks : Z) (m : metricsVars) : Prop :=
  totalRequestsReceived m = kr
  /\ totalResponsesSent m = ks
  /\ total (totalResponsesSentByStatus m) = ks
  /\ map_Forall (fun _ v => 0 <= v) (totalResponsesSentByStatus m).

(** ** rateLimit *)

(** Modelled from the spec: golang.org/x/time/rate is not among the
    sources.  A token bucket (section 4.2): created full, refilled
    continuously at [limit] tokens per second up to [burst]; a request is
    admitted when at least one token is there and takes exactly one, a
    refused request takes none.  Token counts are exact rationals. *)
Record Limiter := {
  lim_limit : Q;
  lim_burst : Z;
  lim_tokens : Q;
  lim_last : Z
}.

Definition NewLimiter (r : Q) (b : Z) : Limiter :=
  {| lim_limit := r; lim_burst := b; lim_tokens := inject_Z b; lim_last := 0 |}.

(** [Duration.Seconds()]. *)
Definition Seconds (d : Z) : Q := d # 1000000000.

(** The tokens in the bucket at time [t]. *)
Definition advance (lim : Limiter) (t : Z) : Q :=
  let last := if (t <? lim_last lim)%Z then t else lim_last lim in
  let elapsed := t - last in
  let tokens := (lim_tokens lim + Seconds elapsed * lim_limit lim)%Q in
  if Qle_bool (inject_Z (lim_burst lim)) tokens
  then inject_Z (lim_burst lim) else tokens.

(** [lim.Allow()] at time [t]. *)
Definition Allow (t : Z) (lim : Limiter) : bool * Limiter :=
  let tokens := advance lim t in
  if Qle_bool 1 tokens then
    (true, {| lim_limit := lim_limit lim; lim_burst := lim_burst lim;
              lim_tokens := (tokens - 1)%Q; lim_last := t |})
  else (false, lim).

(** The [client] struct and the variables captured by the closure: the
    mutex (held or not) and the map.  The map holds pointers, so a change
    to a client is a change in the map. *)
Record client := {
  limiter : Limiter;
  lastSeen : Z
}.

Record registry := {
  mu : bool;
  clients : gmap string client
}.

(** The captured variables when [rateLimit] returns the handler. *)
Definition newRegistry : registry := {| mu := false; clients := ∅ |}.

Definition Second : Z := 1000000000.
Definition Minute : Z := 60 * Second.

(** [mu.Lock()]: a goroutine that finds the mutex held does not go on. *)
Definition mu_Lock {S} : M (registry * S) unit := fun ps =>
  if mu ps.1 then Run [] ps Blocked
  else Run [] ({| mu := true; clients := clients ps.1 |}, ps.2) (Val tt).

Definition mu_Unlock {S} : M (registry * S) unit :=
  captured (fun reg => {| mu := false; clients := clients reg |}).

Definition on_clients (f : gmap string client -> gmap string client)
    (reg : registry) : registry :=
  {| mu := mu reg; clients := f (clients reg) |}.

Section RateLimit.
Context {S : Type} `{!World S}.

(** [app.config.limiter]. *)
Variable enabled : bool.
Variable rps : Q.
Variable burst : Z.

(** [realip.FromRequest], an external package. *)
Variable realip_FromRequest : request -> string.

(** [clients[ip].limiter.Allow()], through the pointer in the map. *)
Definition clients_Allow (ip : string) : M (registry * S) bool := fun ps =>
  match clients ps.1 !! ip with
  | Some c =>
      let '(ok, lim) := Allow (time_Now ps.2) (limiter c) in
      Run [] (on_clients
                <[ip := {| limiter := lim; lastSeen := lastSeen c |}]> ps.1,
              ps.2) (Val ok)
  | None => Run [] ps (Panicked "invalid memory address or nil pointer dereference")
  end.

(** The handler returned by [rateLimit]. *)
Definition rateLimit (next : Handler S) : Handler (registry * S) := fun r =>
  if enabled then
    let ip := realip_FromRequest r in
    mu_Lock;;
    captured (on_clients (fun cs =>
      match cs !! ip with
      | Some _ => cs
      | None => <[ip := {| limiter := NewLimiter rps burst; lastSeen := 0 |}]> cs
      end));;
    t ← inner now;
    captured (on_clients (alter (fun c =>
      {| limiter := limiter c; lastSeen := t |}) ip));;
    ok ← clients_Allow ip;
    if negb ok then
      mu_Unlock;;
      rateLimitExceededResponse
    else
      mu_Unlock;;
      inner (next r)
  else inner (next r).

(** One turn of the loop of the background goroutine, from the return of
    [time.Sleep(time.Minute)] to the end of the loop body: the mutex is
    taken, the clients not seen for more than three minutes are deleted,
    and the body ends. *)
Definition sweep : M (registry * S) unit :=
  mu_Lock;;
  t ← inner now;
  captured (on_clients
    (filter (fun kc : string * client => ¬ (t - lastSeen kc.2 > 3 * Minute)))).
End RateLimit.

(** The admission checks of requests that arrive one after the other, each
    in the world of its arrival (the clock has moved, the stores may have
    changed), on the registry the one before left. *)
Fixpoint checks {S} (h : Handler (registry * S)) (arrivals : list (request * S))
    (reg : registry) : list (run (registry * S) unit) * registry :=
  match arrivals with
  | [] => ([], reg)
  | (r, s) :: rest =>
      let res := h r (reg, s) in
      let '(runs, reg') := checks h rest (final res).1 in
      (res :: runs, reg')
  end.

(** A request let through: its run is the run of the next handler. *)
Definition admitted {S} (next : Handler S) (r : request) (s : S)
    (res : run (registry * S) unit) : Prop :=
  trace res = trace (next r s) /\ out res = out (next r s)
  /\ (final res).2 = final (next r s).

(** A request refused: the rate-limit-exceeded response and nothing else. *)
Definition denied {S} (s : S) (res : run (registry * S) unit) : Prop :=
  trace res = [WriteHeader 429; WriteBytes "rate limit exceeded"]
  /\ out res = Val tt /\ (final res).2 = s.

(** The registry has the mutex free and, for [ip], a client last seen and
    last admitted at [t] whose bucket of the configured rate and burst holds
    [n] tokens. *)
Definition holds_tokens (rps : Q) (burst : Z) (ip : string) (t : Z) (n : nat)
    (reg : registry) : Prop :=
  mu reg = false
  /\ exists c, clients reg !! ip = Some c
       /\ lastSeen c = t
       /\ lim_last (limiter c) = t
       /\ lim_limit (limiter c) = rps
       /\ lim_burst (limiter c) = burst
       /\ (lim_tokens (limiter c) == inject_Z (Z.of_nat n))%Q
       /\ Z.of_nat n <= burst.

(** ** Serving requests *)

(** The requests of a list served one after the other, each from the state
    the one before left.  A panic that escapes the handler is taken to end
    the process: nothing is served after it. *)
Fixpoint serve {S} (h : Handler S) (rs : list request) (s : S)
  : list (run S unit) * S :=
  match rs with
  | [] => ([], s)
  | r :: rest =>
      let res := h r s in
      match out res with
      | Panicked _ => ([res], final res)
      | _ => let '(runs, s') := serve h rest (final res) in (res :: runs, s')
      end
  end.

Definition completed {S} (res : run S unit) : Prop := out res = Val tt.

(** ** The rate limiter as a process *)

(** The goroutines that share the registry: the handlers of the requests
    and the background sweeper.  The critical sections exclude one another,
    so each is one move; the world may change between moves. *)
Section Process.
Context {S : Type} `{!World S}.
Variable enabled : bool.
Variable rps : Q.
Variable burst : Z.
Variable realip_FromRequest : request -> string.
Variable next : Handler S.

Record process := {
  reg : registry;
  world : S;
  wake : Z      (* when the sweeper's current time.Sleep ends *)
}.

Inductive move :=
| Env (s' : S)          (* time passes, the stores change *)
| Sweeper               (* the sweeper goes on, if it can *)
| Request (r : request). (* a request is handled *)

(** [rateLimit] returns after starting the sweeper, which first sleeps. *)
Definition start (s : S) : process :=
  {| reg := newRegistry; world := s; wake := time_Now s + Minute |}.

Definition step (p : process) (mv : move) : process :=
  match mv with
  | Env s' => {| reg := reg p; world := s'; wake := wake p |}
  | Sweeper =>
      if (wake p <=? time_Now (world p))%Z then
        let res := sweep (reg p, world p) in
        match out res with
        | Val _ => {| reg := (final res).1; world := (final res).2;
                      wake := time_Now (final res).2 + Minute |}
        | _ => p
        end
      else p
  | Request r =>
      let res := rateLimit enabled rps burst realip_FromRequest next r
                   (reg p, world p) in
      {| reg := (final res).1; world := (final res).2; wake := wake p |}
  end.

Definition exec (p : process) (mvs : list move) : process :=
  fold_left step mvs p.
End Process.

Arguments process S : clear implicits.
Arguments move S : clear implicits.

(** ** Measures used by the further properties *)

(** The number of spaces of a string. *)
Fixpoint spaces (s : string) : nat :=
  match s with
  | EmptyString => 0%nat
  | String c rest =>
      if Ascii.eqb c " "%char then Datatypes.S (spaces rest) else spaces rest
  end.

(** The status under which the metrics stage counts a run: the one that
    went out, 200 when nothing was written. *)
Definition status_of {S A} (res : run S A) : Z :=
  default StatusOK (committed (trace res)).

(** How many runs of a list went out with status [code]. *)
Fixpoint count_status {S A} (code : Z) (runs : list (run S A)) : Z :=
  match runs with
  | [] => 0
  | res :: rest =>
      (if (status_of res =? code)%Z then 1 else 0) + count_status code rest
  end.

(** How many runs of a list are counted under the key [key]. *)
Fixpoint count_key {S A} (key : string) (runs : list (run S A)) : Z :=
  match runs with
  | [] => 0
  | res :: rest =>
      (if String.eqb (Itoa (status_of res)) key then 1 else 0)
      + count_key key rest
  end.

(** The ways the calls of a handler end when the requests of a list are
    handed to it one after the other, each in the state the one before
    left, whatever the way it ended. *)
Fixpoint outcomes {S} (next : Handler S) (rs : list request) (s : S)
  : list (result unit) :=
  match rs with
  | [] => []
  | r :: rest => out (next r s) :: outcomes next rest (final (next r s))
  end.

Fixpoint count_returned (os : list (result unit)) : Z :=
  match os with
  | [] => 0
  | Val _ :: rest => 1 + count_returned rest
  | _ :: rest => count_returned rest
  end.

(** The world seen from a closure: its captured variables change neither
    the clock nor the stores. *)
#[export] Instance World_captured {P S} `{!World S} : World (P * S) := {|
  time_Now := fun ps => time_Now ps.2;
  Users_answer := fun ps => Users_answer ps.2;
  Permissions_answer := fun ps => Permissions_answer ps.2
|}.

(** A run that is the refusal of the rate limiter. *)
Definition is_refusal {S} (res : run S unit) : bool :=
  match trace res, out res with
  | [WriteHeader code; WriteBytes b], Val _ =>
      (code =? StatusTooManyRequests)%Z && String.eqb b "rate limit exceeded"
  | _, _ => false
  end.

(** How many runs of a list are not refusals. *)
Fixpoint count_let_through {S} (runs : list (run S unit)) : Z :=
  match runs with
  | [] => 0
  | res :: rest =>
      (if is_refusal res then 0 else 1) + count_let_through rest
  end.

(** The times of a list do not go back, starting from [t]. *)
Fixpoint ascending_from (t : Z) (ts : list Z) : Prop :=
  match ts with
  | [] => True
  | t' :: rest => t <= t' /\ ascending_from t' rest
  end.

(** The registry holds for [ip] a bucket of the configured rate and burst,
    last admitted at [L], and the [A] requests let through since [t1]
    together with the tokens left are within the burst plus what the rate
    gives from [t1] to [L]. *)
Definition within_budget (rps : Q) (burst : Z) (ip : string) (t1 : Z)
    (A L : Z) (reg : registry) : Prop :=
  mu reg = false
  /\ exists c, clients reg !! ip = Some c
       /\ lim_limit (limiter c) = rps
       /\ lim_burst (limiter c) = burst
       /\ lim_last (limiter c) = L
       /\ (0 <= lim_tokens (limiter c))%Q
       /\ (lim_tokens (limiter c) <= inject_Z burst)%Q
       /\ (inject_Z A + lim_tokens (limiter c)
           <= inject_Z burst + (Seconds L - Seconds t1) * rps)%Q.

(** ** Sample inputs *)

(** A small world: the state is the clock; one token resolves to an
    activated user who may read movies, one token makes the store fail, and
    nothing else is known. *)
Definition sample_user : User := {| ID := 7; Activated := true |}.
Definition sample_token : string := "ABCDEFGHIJKLMNOPQRSTUVWXYZ".

#[export] Instance sample_World : World Z := {|
  time_Now := fun t => t;
  Users_answer := fun _ scope token =>
    if String.eqb token sample_token then inl sample_user
    else if String.eqb token "AAAAAAAAAAAAAAAAAAAAAAAAAA"
         then inr (ErrWrap "query" (ErrOther "connection refused"))
         else inr ErrRecordNotFound;
  Permissions_answer := fun _ id =>
    if (id =? 7)%Z then inl ["movies:read"] else inl []
|}.

(** A client address taken from nowhere but the sample itself. *)
Definition sample_ip : string := "10.0.0.1".
Definition sample_realip (_ : request) : string := sample_ip.

Definition sample_request : request :=
  {| Method := "GET"; Headers := ∅; ctxUser := None |}.

Definition sample_with_header (method key value : string)
    (i : option identity) : request :=
  {| Method := method; Headers := {[ key := [value] ]}; ctxUser := i |}.

(** The shape check of the sample: 26 bytes. *)
Definition sample_shape (token : string) : bool :=
  Nat.eqb (String.length token) 26.

(** A handler that returns without writing, and one that panics. *)
Definition sample_quiet {S} : Handler S := fun _ => mret tt.
Definition sample_panicking {S} : Handler S := fun _ =>
  emit (HeaderSet "Content-Type" "application/json");; panic "boom".

(** A handler that answers with the identity it finds in the context of
    its request. *)
Definition sample_whoami {S} : Handler S := fun r =>
  user ← contextGetUser r;
  emit (WriteBytes (if IsAnonymous user then "anonymous"
                    else Itoa (ID (fields user)))).


(** One client, the sweeper and the clock: a request ten seconds after the
    start, the sweeper at one minute, at two, and at five. *)
Definition sample_moves : list (move Z) :=
  [Env (10 * Second); Request sample_request;
   Env (60 * Second); Sweeper;
   Env (120 * Second); Sweeper;
   Env (300 * Second); Sweeper].

Definition sample_process : process Z :=
  exec true 2 4 sample_realip sample_quiet (start 0) sample_moves.

(** A client first seen shortly before the first sweep: three requests at
    59.8 seconds, the sweeper at one minute, and the clock at 60.3 seconds,
    half a second after the requests. *)
Definition sample_burst_moves : list (move Z) :=
  [Env 59800000000;
   Request sample_request; Request sample_request; Request sample_request;
   Env (60 * Second); Sweeper;
   Env 60300000000].

(** * Properties *)

Ltac go_unfold :=
  cbv [mbind M_bind mret M_ret bind ret emit get panic inner captured recover
       now errorResponse after].

(** No event of an explicit trace is the one looked for. *)
Ltac absent_from_trace H :=
  simpl in H; repeat (destruct H as [H | H]; [discriminate H |]); destruct H.

Lemma run_eta {S A} (res : run S A) : Run (trace res) (final res) (out res) = res.
Proof. by destruct res. Qed.

Lemma bind_unfold {S A B} (m : M S A) (k : A -> M S B) (s : S) :
  (m ≫= k) s =
    match out (m s) with
    | Val a => after (trace (m s)) (k a (final (m s)))
    | Panicked v => Run (trace (m s)) (final (m s)) (Panicked v)
    | Blocked => Run (trace (m s)) (final (m s)) Blocked
    end.
Proof. reflexivity. Qed.

(** A step that makes no call and returns. *)
Lemma bind_pure {S A B} (m : M S A) (k : A -> M S B) (s s' : S) (a : A) :
  m s = Run [] s' (Val a) -> (m ≫= k) s = k a s'.
Proof. intros H. rewrite bind_unfold, H. simpl. apply run_eta. Qed.

Lemma bind_emit {S B} (e : event) (k : unit -> M S B) (s : S) :
  (emit e ≫= k) s = after [e] (k tt s).
Proof. reflexivity. Qed.

Lemma after_nil {S A} (res : run S A) : after [] res = res.
Proof. apply run_eta. Qed.

Lemma committed_app_None (es es' : list event) :
  committed es = None -> committed (es ++ es') = committed es'.
Proof.
  induction es as [|e es IH]; [done |].
  destruct e; simpl; try done; exact IH.
Qed.

(** ** recoverPanic *)

Section RecoverPanicFacts.
Context {S : Type}.
Variable next : Handler S.

Lemma recoverPanic_returned r s a :
  out (next r s) = Val a -> recoverPanic next r s = next r s.
Proof. intros H. unfold recoverPanic, recover. by rewrite H. Qed.

Lemma recoverPanic_blocked r s :
  out (next r s) = Blocked -> recoverPanic next r s = next r s.
Proof. intros H. unfold recoverPanic, recover. by rewrite H. Qed.

Lemma recoverPanic_panicked r s v :
  out (next r s) = Panicked v ->
  recoverPanic next r s =
    Run (trace (next r s) ++
         [LogError "err" [LogValue v; LogValue "stack"; LogStack];
          HeaderSet "Connection" "close"; LogError v [];
          WriteHeader StatusInternalServerError;
          WriteBytes "the server encountered a problem and could not process your request"])
        (final (next r s)) (Val tt).
Proof. intros H. unfold recoverPanic, recover. rewrite H. reflexivity. Qed.

Lemma recoverPanic_no_panic r s v : out (recoverPanic next r s) ≠ Panicked v.
Proof.
  destruct (out (next r s)) as [[]| |] eqn:E.
  - rewrite (recoverPanic_returned _ _ _ E). congruence.
  - by rewrite (recoverPanic_panicked _ _ _ E).
  - rewrite (recoverPanic_blocked _ _ E). congruence.
Qed.
End RecoverPanicFacts.

(** A handler that never lets a panic out serves every request of a list. *)
Lemma serve_no_panic {S} (h : Handler S) :
  (forall r s v, out (h r s) ≠ Panicked v) ->
  forall rs s,
    length (serve h rs s).1 = length rs /\
    Forall (fun res => forall v, out res ≠ Panicked v) (serve h rs s).1.
Proof.
  intros Hh rs. induction rs as [|r rs IH]; intros s; simpl.
  - split; [done | constructor].
  - destruct (out (h r s)) as [a|v|] eqn:E.
    + destruct (serve h rs (final (h r s))) as [runs s'] eqn:Es.
      specialize (IH (final (h r s))). rewrite Es in IH. simpl in *.
      destruct IH as [IH1 IH2]. split; [by rewrite IH1 |].
      constructor; [intros v; rewrite E; congruence | done].
    + by destruct (Hh r s v).
    + destruct (serve h rs (final (h r s))) as [runs s'] eqn:Es.
      specialize (IH (final (h r s))). rewrite Es in IH. simpl in *.
      destruct IH as [IH1 IH2]. split; [by rewrite IH1 |].
      constructor; [intros v; rewrite E; congruence | done].
Qed.

(** C7.  When the downstream handler panics on a request, the recovery
    guard stops the panic: it logs, sets [Connection: close], calls the
    server-error helper (status 500) and returns.  If nothing had been
    written before the panic, 500 is the status that goes out.  No panic
    leaves the guard, so the process goes on: every later request of any
    list is served, starting from the state the panicking one left. *)
Theorem recoverPanic_catches {S} (next : Handler S) (r : request) (s : S)
    (v : string) :
  out (next r s) = Panicked v ->
  recoverPanic next r s =
    Run (trace (next r s) ++
         [LogError "err" [LogValue v; LogValue "stack"; LogStack];
          HeaderSet "Connection" "close"; LogError v [];
          WriteHeader 500;
          WriteBytes "the server encountered a problem and could not process your request"])
        (final (next r s)) (Val tt)
  /\ (committed (trace (next r s)) = None ->
      committed (trace (recoverPanic next r s)) = Some 500)
  /\ (forall r' s' v', out (recoverPanic next r' s') ≠ Panicked v')
  /\ forall rs,
       (serve (recoverPanic next) (r :: rs) s).1 =
         recoverPanic next r s
           :: (serve (recoverPanic next) rs (final (next r s))).1
       /\ length (serve (recoverPanic next) (r :: rs) s).1 = length (r :: rs)
       /\ Forall (fun res => forall v', out res ≠ Panicked v')
            (serve (recoverPanic next) (r :: rs) s).1.
Proof.
  intros H. pose proof (recoverPanic_panicked next r s v H) as E.
  split; [exact E |]. split; [| split].
  - intros Hc. rewrite E. simpl. by rewrite committed_app_None.
  - intros r' s' v'. apply recoverPanic_no_panic.
  - intros rs. split.
    + simpl. rewrite E. simpl.
      by destruct (serve (recoverPanic next) rs (final (next r s))).
    + apply (serve_no_panic (recoverPanic next)).
      intros ? ? ?. apply recoverPanic_no_panic.
Qed.

(** ** authenticate *)

Section AuthenticateFacts.
Context {S : Type} `{!World S}.
Variable ValidateTokenPlaintext : string -> bool.
Variable next : Handler S.

Let authenticate' := authenticate ValidateTokenPlaintext next.

Lemma authenticate_no_header r s :
  Header_Get (Headers r) "Authorization" = "" ->
  authenticate' r s =
    after [HeaderAdd "Vary" "Authorization"]
          (next (contextSetUser r AnonymousUser) s).
Proof.
  intros H. unfold authenticate', authenticate. rewrite H. reflexivity.
Qed.

Lemma authenticate_malformed r s :
  Header_Get (Headers r) "Authorization" ≠ "" ->
  length (Split (Header_Get (Headers r) "Authorization")) ≠ 2%nat
  \/ nth 0 (Split (Header_Get (Headers r) "Authorization")) "" ≠ "Bearer" ->
  authenticate' r s =
    Run [HeaderAdd "Vary" "Authorization"; WriteHeader 401;
         WriteBytes "invalid or missing authentication token"] s (Val tt).
Proof.
  intros Hne Hbad. unfold authenticate', authenticate.
  apply String.eqb_neq in Hne. rewrite Hne.
  assert (negb (Nat.eqb (length (Split (Header_Get (Headers r) "Authorization"))) 2)
          || negb (String.eqb (nth 0 (Split (Header_Get (Headers r) "Authorization")) "")
                              "Bearer") = true) as ->; [| reflexivity].
  destruct Hbad as [Hl | Hs].
  - apply Nat.eqb_neq in Hl. by rewrite Hl.
  - apply String.eqb_neq in Hs. rewrite Hs. by rewrite orb_true_r.
Qed.

Lemma authenticate_bad_shape r s :
  Header_Get (Headers r) "Authorization" ≠ "" ->
  ValidateTokenPlaintext
    (nth 1 (Split (Header_Get (Headers r) "Authorization")) "") = false ->
  authenticate' r s =
    Run [HeaderAdd "Vary" "Authorization"; WriteHeader 401;
         WriteBytes "invalid or missing authentication token"] s (Val tt).
Proof.
  intros Hne Hv. unfold authenticate', authenticate.
  apply String.eqb_neq in Hne. rewrite Hne, Hv.
  by destruct (negb _ || negb _).
Qed.

Lemma authenticate_lookup r s token :
  Header_Get (Headers r) "Authorization" ≠ "" ->
  Split (Header_Get (Headers r) "Authorization") = ["Bearer"; token] ->
  ValidateTokenPlaintext token = true ->
  authenticate' r s =
    match Users_answer s ScopeAuthentication token with
    | inl user =>
        after [HeaderAdd "Vary" "Authorization";
               GetForToken ScopeAuthentication token]
              (next (contextSetUser r (Authenticated user)) s)
    | inr err =>
        if errors_Is_ErrRecordNotFound err then
          Run [HeaderAdd "Vary" "Authorization";
               GetForToken ScopeAuthentication token; WriteHeader 401;
               WriteBytes "invalid or missing authentication token"]
              s (Val tt)
        else
          Run [HeaderAdd "Vary" "Authorization";
               GetForToken ScopeAuthentication token; LogError (Error err) [];
               WriteHeader 500;
               WriteBytes "the server encountered a problem and could not process your request"]
              s (Val tt)
    end.
Proof.
  intros Hne Hsp Hv. unfold authenticate', authenticate.
  apply String.eqb_neq in Hne. rewrite Hne, Hsp. simpl. rewrite Hv. simpl.
  go_unfold. unfold Users_GetForToken. simpl.
  destruct (Users_answer s ScopeAuthentication token) as [u | err]; [done |].
  by destruct (errors_Is_ErrRecordNotFound err).
Qed.
End AuthenticateFacts.



(** C3.  For a header [Bearer token] whose token passes the shape check,
    the stage calls the token-resolution collaborator with the
    authentication scope and the token.  A record-not-found answer, also a
    wrapped one, gives the invalid-authentication-token response, any other
    error is logged and gives the 500 server-error response, and only a user
    gives the next stage, run on a request that differs from the incoming
    one only in its context, which now holds [Authenticated user]. *)
Theorem authenticate_lookup_outcomes {S} `{!World S}
    (ValidateTokenPlaintext : string -> bool) (next : Handler S)
    (r : request) (s : S) (token : string) :
  Header_Get (Headers r) "Authorization" ≠ "" ->
  Split (Header_Get (Headers r) "Authorization") = ["Bearer"; token] ->
  ValidateTokenPlaintext token = true ->
  (forall err, Users_answer s "authentication" token = inr err ->
     errors_Is_ErrRecordNotFound err = true ->
     authenticate ValidateTokenPlaintext next r s =
       Run [HeaderAdd "Vary" "Authorization";
            GetForToken "authentication" token; WriteHeader 401;
            WriteBytes "invalid or missing authentication token"] s (Val tt))
  /\ (forall err, Users_answer s "authentication" token = inr err ->
      errors_Is_ErrRecordNotFound err = false ->
      authenticate ValidateTokenPlaintext next r s =
        Run [HeaderAdd "Vary" "Authorization";
             GetForToken "authentication" token; LogError (Error err) [];
             WriteHeader 500;
             WriteBytes "the server encountered a problem and could not process your request"]
            s (Val tt))
  /\ (forall user, Users_answer s "authentication" token = inl user ->
      let authenticated := contextSetUser r (Authenticated user) in
      ctxUser authenticated = Some (Authenticated user)
      /\ Method authenticated = Method r /\ Headers authenticated = Headers r
      /\ authenticate ValidateTokenPlaintext next r s =
           after [HeaderAdd "Vary" "Authorization";
                  GetForToken "authentication" token]
                 (next authenticated s)).
Proof.
  intros Hne Hsp Hv.
  pose proof (authenticate_lookup ValidateTokenPlaintext next r s token
                Hne Hsp Hv) as E.
  unfold ScopeAuthentication in E.
  split; [| split].
  - intros err Ha Hnf. by rewrite Ha, Hnf in E.
  - intros err Ha Hnf. by rewrite Ha, Hnf in E.
  - intros user Ha authenticated. split; [reflexivity |].
    split; [reflexivity |]. split; [reflexivity |]. by rewrite Ha in E.
Qed.

(** ** The authorization guards *)

(** C4.  On a route behind [requirePermission code]: an anonymous identity
    gets the authentication-required response, with no call of the
    permission collaborator; an authenticated user who is not activated
    gets the inactive-account response, again with no call; for an
    authenticated, activated user the permission set is asked for, and the
    answer decides: an error gives the 500 response, a set without [code]
    the not-permitted response, a set with [code] the protected handler. *)
Theorem requirePermission_order {S} `{!World S} (code : string)
    (next : Handler S) (r : request) (s : S) :
  (ctxUser r = Some AnonymousUser ->
     requirePermission code next r s =
       Run [WriteHeader 401;
            WriteBytes "you must be authenticated to access this resource"]
           s (Val tt))
  /\ (forall u, ctxUser r = Some (Authenticated u) -> Activated u = false ->
      requirePermission code next r s =
        Run [WriteHeader 403;
             WriteBytes "your user account must be activated to access this resource"]
            s (Val tt))
  /\ (forall u, ctxUser r = Some (Authenticated u) -> Activated u = true ->
      (forall err, Permissions_answer s (ID u) = inr err ->
         requirePermission code next r s =
           Run [GetAllForUser (ID u); LogError (Error err) []; WriteHeader 500;
                WriteBytes "the server encountered a problem and could not process your request"]
               s (Val tt))
      /\ (forall permissions, Permissions_answer s (ID u) = inl permissions ->
          (Include permissions code = false ->
             requirePermission code next r s =
               Run [GetAllForUser (ID u); WriteHeader 403;
                    WriteBytes "your user account doesn't have the necessary permissions to access this resource"]
                   s (Val tt))
          /\ (Include permissions code = true ->
              requirePermission code next r s =
                after [GetAllForUser (ID u)] (next r s)))).
Proof.
  unfold requirePermission, requireActivatedUser, requireAuthenticatedUser,
    contextGetUser, Permissions_GetAllForUser.
  split; [| split].
  - intros H. rewrite H. reflexivity.
  - intros u H Ha. rewrite H. go_unfold. simpl. rewrite Ha. reflexivity.
  - intros u H Ha. rewrite H. go_unfold. simpl. rewrite Ha. simpl. split.
    + intros err He. rewrite He. reflexivity.
    + intros permissions Hp. rewrite Hp. split; intros Hi; rewrite Hi; reflexivity.
Qed.

(** ** enableCORS *)

Section CORSFacts.
Context {S : Type}.

Lemma enableCORS_loop_untrusted (r : request) (origin : string)
    (origins : list string) (s : S) :
  ¬ In origin origins ->
  enableCORS_loop r origin origins s = Run [] s (Val false).
Proof.
  induction origins as [|o rest IH]; intros Hn; [done |]. simpl.
  destruct (String.eqb_spec origin o) as [-> | Hne].
  - destruct Hn. by left.
  - apply IH. intros Hin. apply Hn. by right.
Qed.

Lemma enableCORS_loop_preflight (r : request) (origin : string)
    (origins : list string) (s : S) :
  In origin origins ->
  Method r = "OPTIONS" ->
  Header_Get (Headers r) "Access-Control-Request-Method" ≠ "" ->
  enableCORS_loop r origin origins s =
    Run [HeaderSet "Access-Control-Allow-Origin" origin;
         HeaderSet "Access-Control-Allow-Methods" "OPTIONS, PUT, PATCH, DELETE";
         HeaderSet "Access-Control-Allow-Headers" "Authorization, Content-Type";
         WriteHeader 200] s (Val true).
Proof.
  intros Hin Hm Hh. apply String.eqb_neq in Hh.
  induction origins as [|o rest IH]; [destruct Hin |]. simpl.
  destruct (String.eqb_spec origin o) as [-> | Hne].
  - rewrite Hm, Hh. reflexivity.
  - apply IH. destruct Hin as [-> | Hin]; [done | exact Hin].
Qed.
End CORSFacts.

(** C5.  A request whose [Origin] header is there (not empty) and equal to
    an entry of the trusted origins, with method OPTIONS and a non-empty
    [Access-Control-Request-Method] header, is answered at once: the two
    [Vary] headers, the allow-origin header, the fixed allow-methods and
    allow-headers values, status 200; the run does not depend on the
    downstream handler, which is not called.  A request whose [Origin] header
    is absent or equal to no trusted origin gets the two [Vary] headers and
    nothing else from this stage, and the downstream handler runs. *)
Theorem enableCORS_preflight_and_untrusted {S} (trustedOrigins : list string)
    (next : Handler S) (r : request) (s : S) :
  let origin := Header_Get (Headers r) "Origin" in
  (origin ≠ "" -> In origin trustedOrigins ->
   Method r = "OPTIONS" ->
   Header_Get (Headers r) "Access-Control-Request-Method" ≠ "" ->
     enableCORS trustedOrigins next r s =
       Run [HeaderAdd "Vary" "Origin";
            HeaderAdd "Vary" "Access-Control-Request-Method";
            HeaderSet "Access-Control-Allow-Origin" origin;
            HeaderSet "Access-Control-Allow-Methods" "OPTIONS, PUT, PATCH, DELETE";
            HeaderSet "Access-Control-Allow-Headers" "Authorization, Content-Type";
            WriteHeader 200] s (Val tt))
  /\ (origin = "" \/ ¬ In origin trustedOrigins ->
      enableCORS trustedOrigins next r s =
        after [HeaderAdd "Vary" "Origin";
               HeaderAdd "Vary" "Access-Control-Request-Method"] (next r s)).
Proof.
  intros origin. unfold enableCORS. fold origin. split.
  - intros Hne Hin Hm Hh. apply String.eqb_neq in Hne. rewrite Hne. simpl.
    go_unfold. simpl.
    by rewrite (enableCORS_loop_preflight r origin trustedOrigins s Hin Hm Hh).
  - intros [He | Hn].
    + rewrite He. reflexivity.
    + destruct (String.eqb origin "") eqn:E; [reflexivity |]. simpl.
      go_unfold. simpl.
      by rewrite (enableCORS_loop_untrusted r origin trustedOrigins s Hn).
Qed.

(** ** metrics *)

Lemma wrap64_small (z : Z) : - 2 ^ 63 <= z < 2 ^ 63 -> wrap64 z = z.
Proof.
  intros H. unfold wrap64.
  rewrite Z.mod_small; lia.
Qed.

Lemma total_insert (key : string) (v : Z) (m : gmap string Z) :
  total (<[key := v]> m) = total m - default 0 (m !! key) + v.
Proof.
  unfold total.
  assert (Hcomm : forall (m' : gmap string Z) (j1 j2 : string) (z1 z2 y : Z),
             j1 ≠ j2 -> m' !! j1 = Some z1 -> m' !! j2 = Some z2 ->
             z1 + (z2 + y) = z2 + (z1 + y)) by (intros; lia).
  destruct (m !! key) as [old|] eqn:E; simpl.
  - rewrite <- insert_delete_eq.
    rewrite map_fold_insert_L; [| by apply Hcomm | by apply lookup_delete_eq].
    rewrite (map_fold_delete_L _ _ key old m); [lia | by apply Hcomm | done].
  - rewrite map_fold_insert_L; [lia | by apply Hcomm | done].
Qed.

Lemma mw_calls_forward (es : list event) (mw : metricsResponseWriter) :
  (mw_calls es mw).1 = es.
Proof.
  revert mw. induction es as [|e es IH]; intros mw; [done |]. simpl.
  destruct (mw_call e mw) as [e' mw1] eqn:Ec.
  specialize (IH mw1). destruct (mw_calls es mw1) as [es' mw2]. simpl in *.
  destruct e; simpl in Ec; inversion Ec; by subst.
Qed.

Lemma mw_calls_written (es : list event) (mw : metricsResponseWriter) :
  headerWritten mw = true -> statusCode (mw_calls es mw).2 = statusCode mw.
Proof.
  revert mw. induction es as [|e es IH]; intros mw Hw; [done |]. simpl.
  destruct (mw_call e mw) as [e' mw1] eqn:Ec.
  assert (headerWritten mw1 = true /\ statusCode mw1 = statusCode mw) as [H1 H2].
  { destruct e; simpl in Ec; unfold mw_WriteHeader, mw_Write in Ec;
      try rewrite Hw in Ec; inversion Ec; by subst. }
  specialize (IH mw1 H1). destruct (mw_calls es mw1) as [es' mw2]. simpl in *.
  congruence.
Qed.

(** The status that the wrapper records is the one that goes out. *)
Lemma mw_calls_status (es : list event) :
  statusCode (mw_calls es newMetricsResponseWriter).2
  = default StatusOK (committed es).
Proof.
  induction es as [|e es IH]; [done |].
  destruct e; simpl in *;
    try (destruct (mw_calls es newMetricsResponseWriter) as [es' mw2]; exact IH).
  - pose proof (mw_calls_written es {| statusCode := code; headerWritten := true |}
                  eq_refl) as H.
    clear IH. by destruct (mw_calls es _).
  - pose proof (mw_calls_written es {| statusCode := StatusOK; headerWritten := true |}
                  eq_refl) as H.
    clear IH. by destruct (mw_calls es _).
Qed.

Lemma committed_no_WriteHeader (es : list event) :
  (forall code, ¬ In (WriteHeader code) es) ->
  default StatusOK (committed es) = StatusOK.
Proof.
  induction es as [|e es IH]; intros Hn; [done |].
  assert (forall code, ¬ In (WriteHeader code) es) as Hn'
    by (intros code Hin; apply (Hn code); by right).
  destruct e; simpl; try done; try by apply IH.
  destruct (Hn code). by left.
Qed.

Section MetricsFacts.
Context {S : Type} `{!World S}.
Variable next : Handler S.

Lemma metrics_run r m s :
  metrics next r (m, s) =
    let res := next r s in
    match out res with
    | Val _ =>
        Run (trace res)
            (counted (default StatusOK (committed (trace res)))
                     (time_Now (final res) - time_Now s) m, final res)
            (Val tt)
    | Panicked v =>
        Run (trace res) (add_totalRequestsReceived 1 m, final res) (Panicked v)
    | Blocked =>
        Run (trace res) (add_totalRequestsReceived 1 m, final res) Blocked
    end.
Proof.
  unfold metrics.
  erewrite bind_pure by reflexivity.
  erewrite bind_pure by reflexivity.
  rewrite bind_unfold. unfold inner at 1, ServeHTTP_mw. simpl.
  pose proof (mw_calls_forward (trace (next r s)) newMetricsResponseWriter) as Hf.
  pose proof (mw_calls_status (trace (next r s))) as Hs.
  destruct (mw_calls (trace (next r s)) newMetricsResponseWriter) as [es mw].
  simpl in *. subst es.
  destruct (out (next r s)) as [[]| |]; simpl; [| reflexivity | reflexivity].
  do 2 (erewrite bind_pure by reflexivity).
  erewrite bind_pure by reflexivity.
  rewrite Hs. unfold after, counted. simpl. by rewrite app_nil_r.
Qed.
End MetricsFacts.

Lemma total_empty : total ∅ = 0.
Proof. unfold total. by rewrite map_fold_empty. Qed.

Lemma total_nonneg (m : gmap string Z) :
  map_Forall (fun _ v => 0 <= v) m -> 0 <= total m.
Proof.
  induction m as [|k v m Hk _ IH] using map_first_key_ind.
  - intros _. by rewrite total_empty.
  - intros Hall. rewrite total_insert, Hk. simpl.
    apply map_Forall_insert in Hall as [Hv Hm]; [| done].
    specialize (IH Hm). lia.
Qed.

Lemma lookup_le_total (m : gmap string Z) (key : string) :
  map_Forall (fun _ v => 0 <= v) m ->
  0 <= default 0 (m !! key) <= total m.
Proof.
  intros Hall. destruct (m !! key) as [v|] eqn:E; simpl.
  - pose proof (Hall key v E) as Hv. simpl in Hv.
    pose proof (total_nonneg (delete key m)) as Hd.
    assert (total m = total (delete key m) + v) as ->.
    { rewrite <- (insert_delete_id m key v E) at 1.
      rewrite total_insert, lookup_delete_eq. simpl. lia. }
    assert (0 <= total (delete key m)); [| lia].
    apply Hd. intros k' v' Hk'.
    apply lookup_delete_Some in Hk' as [_ Hk']. by apply (Hall k' v').
  - split; [lia | by apply total_nonneg].
Qed.

Lemma consistent_new : consistent 0 0 newMetricsVars.
Proof.
  split; [done |]. split; [done |].
  split; [apply total_empty | apply map_Forall_empty].
Qed.

Lemma consistent_received (kr ks : Z) (m : metricsVars) :
  consistent kr ks m -> 0 <= kr -> kr + 1 < 2 ^ 63 ->
  consistent (kr + 1) ks (add_totalRequestsReceived 1 m).
Proof.
  intros (Hr & Hs & Ht & Hn) H0 Hb. repeat split; simpl; try done.
  rewrite Hr. apply wrap64_small. lia.
Qed.

Lemma consistent_counted (kr ks code d : Z) (m : metricsVars) :
  consistent kr ks m -> 0 <= ks <= kr -> kr + 1 < 2 ^ 63 ->
  consistent (kr + 1) (ks + 1) (counted code d m).
Proof.
  intros (Hr & Hs & Ht & Hn) H0 Hb.
  pose proof (lookup_le_total (totalResponsesSentByStatus m) (Itoa code) Hn) as Hle.
  unfold counted, consistent, expvar_Map_Add. simpl. unfold expvar_Map_Add.
  rewrite Hr, Hs.
  rewrite !wrap64_small by lia.
  repeat split; try done.
  - rewrite total_insert. lia.
  - apply map_Forall_insert_2; [lia | done].
Qed.

Lemma serve_cons {S} (h : Handler S) (r : request) (rs : list request) (s : S) :
  serve h (r :: rs) s =
    match out (h r s) with
    | Panicked _ => ([h r s], final (h r s))
    | _ => ((h r s :: (serve h rs (final (h r s))).1),
            (serve h rs (final (h r s))).2)
    end.
Proof. simpl. by destruct (out (h r s)), (serve h rs (final (h r s))). Qed.

Section MetricsCounts.
Context {S : Type} `{!World S}.
Variable next : Handler S.

Lemma metrics_completed r m s :
  completed (metrics next r (m, s)) ->
  exists code d,
    (final (metrics next r (m, s))).1 = counted code d m.
Proof.
  unfold completed. rewrite metrics_run. simpl.
  destruct (out (next r s)) as [[]| |]; simpl; try discriminate.
  intros _. by eexists _, _.
Qed.

Lemma metrics_received r m s kr ks :
  consistent kr ks m -> 0 <= ks <= kr -> kr + 1 < 2 ^ 63 ->
  exists ks', ks <= ks' <= ks + 1 /\
    consistent (kr + 1) ks' (final (metrics next r (m, s))).1.
Proof.
  intros Hc H0 Hb. rewrite metrics_run. simpl.
  destruct (out (next r s)) as [[]| |]; simpl.
  - exists (ks + 1). split; [lia |]. by apply consistent_counted.
  - exists ks. split; [lia |]. apply consistent_received; [done | lia | done].
  - exists ks. split; [lia |]. apply consistent_received; [done | lia | done].
Qed.

Lemma serve_metrics_completed rs : forall m s kr,
  consistent kr kr m -> 0 <= kr -> kr + Z.of_nat (length rs) < 2 ^ 63 ->
  Forall completed (serve (metrics next) rs (m, s)).1 ->
  length (serve (metrics next) rs (m, s)).1 = length rs
  /\ consistent (kr + Z.of_nat (length rs)) (kr + Z.of_nat (length rs))
       (serve (metrics next) rs (m, s)).2.1.
Proof.
  induction rs as [|r rs IH]; intros m s kr Hc H0 Hb Hall.
  - simpl. split; [done |]. by rewrite Z.add_0_r.
  - rewrite serve_cons in *. cbn [length] in *.
    rewrite Nat2Z.inj_succ in *.
    destruct (out (metrics next r (m, s))) as [[]|v|] eqn:E;
      cbn [fst snd length] in Hall |- *.
    + destruct (metrics_completed r m s E) as (code & d & Hfin).
      destruct (final (metrics next r (m, s))) as [m1 s1] eqn:Ef.
      cbn [fst] in Hfin. subst m1.
      apply Forall_cons in Hall as [_ Hall].
      destruct (IH (counted code d m) s1 (kr + 1)) as [IH1 IH2];
        [apply consistent_counted; [done | lia | lia] | lia | lia | done |].
      split; [by rewrite IH1 |].
      by replace (kr + Z.succ (Z.of_nat (length rs)))
        with (kr + 1 + Z.of_nat (length rs)) by lia.
    + apply Forall_cons in Hall as [Hall _].
      unfold completed in Hall. congruence.
    + apply Forall_cons in Hall as [Hall _].
      unfold completed in Hall. congruence.
Qed.
End MetricsCounts.

(** *** Requests served at the same time *)

Lemma op_counts_nonneg (ops : list expvar_op) :
  0 <= (op_counts ops).1.1 /\ 0 <= (op_counts ops).1.2 /\ 0 <= (op_counts ops).2.
Proof.
  induction ops as [|o rest IH]; simpl; [lia |].
  destruct (op_counts rest) as [[kr ks] kb]. destruct o; simpl in *; lia.
Qed.

Lemma op_counts_perm (ops ops' : list expvar_op) :
  ops ≡ₚ ops' -> op_counts ops = op_counts ops'.
Proof.
  induction 1 as [|o l l' _ IH|o o' l|l l' l'' _ IH1 _ IH2]; simpl.
  - reflexivity.
  - by rewrite IH.
  - destruct (op_counts l) as [[kr ks] kb]. by destruct o, o'.
  - congruence.
Qed.

Lemma op_counts_requests (finished : list (Z * Z)) :
  op_counts (concat (map request_ops finished))
  = (Z.of_nat (length finished), Z.of_nat (length finished),
     Z.of_nat (length finished)).
Proof.
  induction finished as [|cd rest IH]; [reflexivity |].
  cbn [map concat length request_ops app op_counts]. rewrite IH.
  f_equal; [f_equal |]; lia.
Qed.

Lemma fold_apply_op (ops : list expvar_op) : forall m kr ks kb,
  totalRequestsReceived m = kr -> totalResponsesSent m = ks ->
  total (totalResponsesSentByStatus m) = kb ->
  map_Forall (fun _ v => 0 <= v) (totalResponsesSentByStatus m) ->
  0 <= kr -> 0 <= ks -> 0 <= kb ->
  kr + (op_counts ops).1.1 < 2 ^ 63 ->
  ks + (op_counts ops).1.2 < 2 ^ 63 ->
  kb + (op_counts ops).2 < 2 ^ 63 ->
  let m' := fold_left apply_op ops m in
  totalRequestsReceived m' = kr + (op_counts ops).1.1
  /\ totalResponsesSent m' = ks + (op_counts ops).1.2
  /\ total (totalResponsesSentByStatus m') = kb + (op_counts ops).2.
Proof.
  induction ops as [|o rest IH]; intros m kr ks kb Hr Hs Hb Hn H0r H0s H0b Br Bs Bb.
  - simpl. lia.
  - cbn [fold_left]. cbn [op_counts] in *.
    pose proof (op_counts_nonneg rest) as (Nr & Ns & Nb).
    destruct (op_counts rest) as [[dr ds] db] eqn:Ec. simpl in Nr, Ns, Nb.
    destruct o; simpl in Br, Bs, Bb |- *.
    + destruct (IH (add_totalRequestsReceived 1 m) (kr + 1) ks kb)
        as (I1 & I2 & I3); simpl; try done; try lia.
      { rewrite Hr. apply wrap64_small. lia. }
      simpl in *. lia.
    + destruct (IH (add_totalResponsesSent 1 m) kr (ks + 1) kb)
        as (I1 & I2 & I3); simpl; try done; try lia.
      { rewrite Hs. apply wrap64_small. lia. }
      simpl in *. lia.
    + pose proof (lookup_le_total (totalResponsesSentByStatus m) (Itoa code) Hn)
        as Hle.
      destruct (IH (add_totalResponsesSentByStatus (Itoa code) 1 m) kr ks (kb + 1))
        as (I1 & I2 & I3); simpl; try done; try lia.
      { unfold expvar_Map_Add. rewrite wrap64_small by lia.
        rewrite total_insert. lia. }
      { unfold expvar_Map_Add. rewrite wrap64_small by lia.
        apply map_Forall_insert_2; [lia | done]. }
      simpl in *. lia.
    + destruct (IH (add_totalProcessingTimeMicroseconds (Microseconds d) m)
                  kr ks kb) as (I1 & I2 & I3); simpl; try done; lia.
Qed.

(** C6.  After the [N] requests of a list went through the metrics stage
    and each completed, the received counter, the sent counter and the sum
    of the per-status counters all equal [N] ([N] below the int64 range of
    the counters).  A completed request leaves the variables as its four
    atomic additions do, and when [N] requests are served at the same time,
    in whatever order their additions interleave, the three totals are [N]
    once all have completed.  A request whose handler completes without any
    call of [WriteHeader], whether or not it writes body bytes, is counted
    under status 200. *)
Theorem metrics_counters_agree {S} `{!World S} (next : Handler S)
    (rs : list request) (s : S) :
  Z.of_nat (length rs) < 2 ^ 63 ->
  Forall completed (serve (metrics next) rs (newMetricsVars, s)).1 ->
  let m := (serve (metrics next) rs (newMetricsVars, s)).2.1 in
  length (serve (metrics next) rs (newMetricsVars, s)).1 = length rs
  /\ totalRequestsReceived m = Z.of_nat (length rs)
  /\ totalResponsesSent m = Z.of_nat (length rs)
  /\ total (totalResponsesSentByStatus m) = Z.of_nat (length rs)
  /\ (forall r m0 s0,
        completed (next r s0) ->
        (final (metrics next r (m0, s0))).1
        = fold_left apply_op
            (request_ops (default 200 (committed (trace (next r s0))),
                          time_Now (final (next r s0)) - time_Now s0)) m0)
  /\ (forall (finished : list (Z * Z)) (ops : list expvar_op),
        Z.of_nat (length finished) < 2 ^ 63 ->
        ops ≡ₚ concat (map request_ops finished) ->
        let m' := fold_left apply_op ops newMetricsVars in
        totalRequestsReceived m' = Z.of_nat (length finished)
        /\ totalResponsesSent m' = Z.of_nat (length finished)
        /\ total (totalResponsesSentByStatus m') = Z.of_nat (length finished))
  /\ forall r m0 s0,
       completed (next r s0) ->
       (forall code, ¬ In (WriteHeader code) (trace (next r s0))) ->
       totalResponsesSentByStatus (final (metrics next r (m0, s0))).1
       = expvar_Map_Add "200" 1 (totalResponsesSentByStatus m0).
Proof.
  intros Hb Hall m.
  destruct (serve_metrics_completed next rs newMetricsVars s 0
              consistent_new ltac:(lia) ltac:(lia) Hall)
    as [Hlen (Hr & Hs & Ht & _)].
  fold m in Hr, Hs, Ht. rewrite Z.add_0_l in *.
  split; [done |]. split; [done |]. split; [done |]. split; [done |].
  split; [| split].
  - intros r m0 s0 Hc. rewrite metrics_run. cbn zeta.
    unfold completed in Hc. by rewrite Hc.
  - intros finished ops Hn Hp m'.
    pose proof (op_counts_perm _ _ Hp) as Hcnt.
    rewrite op_counts_requests in Hcnt.
    destruct (fold_apply_op ops newMetricsVars 0 0 0 eq_refl eq_refl
                total_empty (map_Forall_empty _)) as (Ir & Is & Ib);
      try rewrite Hcnt; simpl; try lia.
    fold m' in Ir, Is, Ib. rewrite Hcnt in Ir, Is, Ib. simpl in Ir, Is, Ib.
    lia.
  - intros r m0 s0 Hc Hn. rewrite metrics_run. cbn zeta.
    unfold completed in Hc. rewrite Hc. cbn [final fst].
    by rewrite (committed_no_WriteHeader _ Hn).
Qed.

Lemma recoverPanic_final {S} (next : Handler S) (r : request) (s : S) :
  final (recoverPanic next r s) = final (next r s).
Proof.
  unfold recoverPanic, recover. by destruct (out (next r s)).
Qed.

Section MetricsPanic.
Context {S : Type} `{!World S}.
Variable next : Handler S.

Lemma serve_recovered_metrics rs : forall m s kr ks,
  consistent kr ks m -> 0 <= ks <= kr ->
  kr + Z.of_nat (length rs) < 2 ^ 63 ->
  exists kr' ks',
    consistent kr' ks'
      (serve (recoverPanic (metrics next)) rs (m, s)).2.1
    /\ 0 <= ks' <= kr' /\ kr' <= kr + Z.of_nat (length rs).
Proof.
  induction rs as [|r rs IH]; intros m s kr ks Hc H0 Hb; simpl in *.
  - exists kr, ks. split; [done | lia].
  - destruct (metrics_received next r m s kr ks Hc H0 ltac:(lia))
      as (ks1 & Hks1 & Hc1).
    rewrite <- (recoverPanic_final (metrics next)) in Hc1.
    destruct (final (recoverPanic (metrics next) r (m, s))) as [m1 s1] eqn:Ef.
    simpl in Hc1.
    destruct (IH m1 s1 (kr + 1) ks1 Hc1 ltac:(lia) ltac:(lia))
      as (kr' & ks' & Hc' & Hk' & Hle).
    destruct (out (recoverPanic (metrics next) r (m, s))) as [[]|v|] eqn:E.
    + destruct (serve (recoverPanic (metrics next)) rs (m1, s1)) as [runs st].
      exists kr', ks'. simpl in *. split; [done | lia].
    + by destruct (recoverPanic_no_panic (metrics next) r (m, s) v).
    + destruct (serve (recoverPanic (metrics next)) rs (m1, s1)) as [runs st].
      exists kr', ks'. simpl in *. split; [done | lia].
Qed.
End MetricsPanic.

(** C10.  When the downstream handler panics, the metrics stage has counted
    the request as received and counts nothing else: the sent counter, the
    per-status counters and the processing time stay as they were, while the
    recovery guard around the metrics stage still answers with the 500
    response.  So in any state reached by serving requests from fresh
    counters, sent is strictly below received after such a request. *)
Theorem metrics_skips_panicking_request {S} `{!World S} (next : Handler S)
    (r : request) (m : metricsVars) (s : S) (v : string) :
  out (next r s) = Panicked v ->
  let res := recoverPanic (metrics next) r (m, s) in
  res = Run (trace (next r s) ++
             [LogError "err" [LogValue v; LogValue "stack"; LogStack];
              HeaderSet "Connection" "close"; LogError v [];
              WriteHeader 500;
              WriteBytes "the server encountered a problem and could not process your request"])
            (add_totalRequestsReceived 1 m, final (next r s)) (Val tt)
  /\ totalRequestsReceived (final res).1 = wrap64 (totalRequestsReceived m + 1)
  /\ totalResponsesSent (final res).1 = totalResponsesSent m
  /\ totalResponsesSentByStatus (final res).1 = totalResponsesSentByStatus m
  /\ totalProcessingTimeMicroseconds (final res).1
     = totalProcessingTimeMicroseconds m
  /\ forall rs s0,
       Z.of_nat (length rs) + 1 < 2 ^ 63 ->
       (serve (recoverPanic (metrics next)) rs (newMetricsVars, s0)).2 = (m, s) ->
       totalResponsesSent (final res).1 < totalRequestsReceived (final res).1.
Proof.
  intros H res.
  assert (E : res = Run (trace (next r s) ++
             [LogError "err" [LogValue v; LogValue "stack"; LogStack];
              HeaderSet "Connection" "close"; LogError v [];
              WriteHeader 500;
              WriteBytes "the server encountered a problem and could not process your request"])
            (add_totalRequestsReceived 1 m, final (next r s)) (Val tt)).
  { unfold res.
    assert (Hm : metrics next r (m, s)
                 = Run (trace (next r s))
                       (add_totalRequestsReceived 1 m, final (next r s))
                       (Panicked v))
      by (rewrite metrics_run; simpl; by rewrite H).
    rewrite (recoverPanic_panicked (metrics next) r (m, s) v)
      by (by rewrite Hm).
    by rewrite Hm. }
  split; [exact E |]. rewrite E. simpl. repeat split.
  intros rs s0 Hb Hst.
  destruct (serve_recovered_metrics next rs newMetricsVars s0 0 0
              consistent_new ltac:(lia) ltac:(lia))
    as (kr & ks & (Hr & Hs & _) & Hk & Hle).
  rewrite Hst in Hr, Hs. simpl in Hr, Hs. rewrite Hr, Hs.
  rewrite wrap64_small by lia. lia.
Qed.

(** ** rateLimit *)

Lemma Qle_bool_false (x y : Q) : Qle_bool x y = false <-> (y < x)%Q.
Proof.
  split.
  - intros H. apply Qnot_le_lt. intros Hle. apply Qle_bool_iff in Hle. congruence.
  - intros H. destruct (Qle_bool x y) eqn:E; [| done].
    apply Qle_bool_iff in E. lra.
Qed.

(** The bucket at the instant of its last admission holds what it held. *)
Lemma advance_same_time (lim : Limiter) (t : Z) :
  lim_last lim = t ->
  (lim_tokens lim <= inject_Z (lim_burst lim))%Q ->
  (advance lim t == lim_tokens lim)%Q.
Proof.
  intros Hl Hle. unfold advance. rewrite Hl, Z.ltb_irrefl, Z.sub_diag.
  assert (Seconds 0 * lim_limit lim == 0)%Q as H0 by (unfold Seconds; lra).
  destruct (Qle_bool _ _) eqn:E.
  - apply Qle_bool_iff in E. lra.
  - lra.
Qed.

(** A new bucket is full at any time, for a rate that is not negative. *)
Lemma advance_new (r : Q) (b t : Z) :
  (0 <= r)%Q -> (advance (NewLimiter r b) t == inject_Z b)%Q.
Proof.
  intros Hr. unfold advance, NewLimiter. simpl.
  destruct (Z.ltb_spec t 0) as [Hlt | Hge].
  - rewrite Z.sub_diag.
    assert (Seconds 0 * r == 0)%Q as H0 by (unfold Seconds; lra).
    destruct (Qle_bool _ _) eqn:E; [reflexivity | lra].
  - destruct (Qle_bool _ _) eqn:E; [reflexivity |].
    apply Qle_bool_false in E.
    assert (0 <= Seconds (t - 0))%Q by (unfold Seconds, Qle; simpl; lia).
    nra.
Qed.

Lemma Allow_admits (t : Z) (lim : Limiter) :
  (1 <= advance lim t)%Q ->
  Allow t lim =
    (true, {| lim_limit := lim_limit lim; lim_burst := lim_burst lim;
              lim_tokens := (advance lim t - 1)%Q; lim_last := t |}).
Proof.
  intros H. unfold Allow. apply Qle_bool_iff in H. by rewrite H.
Qed.

Lemma Allow_refuses (t : Z) (lim : Limiter) :
  (advance lim t < 1)%Q -> Allow t lim = (false, lim).
Proof.
  intros H. unfold Allow. apply Qle_bool_false in H. by rewrite H.
Qed.

Section RateLimitFacts.
Context {S : Type} `{!World S}.
Variable rps : Q.
Variable burst : Z.
Variable realip_FromRequest : request -> string.
Variable next : Handler S.

Let handler := rateLimit true rps burst realip_FromRequest next.

Lemma clients_Allow_run (ip : string) (reg : registry) (s : S) (c : client) :
  clients reg !! ip = Some c ->
  clients_Allow ip (reg, s) =
    Run [] (on_clients
              <[ip := {| limiter := (Allow (time_Now s) (limiter c)).2;
                         lastSeen := lastSeen c |}]> reg, s)
        (Val (Allow (time_Now s) (limiter c)).1).
Proof.
  intros H. unfold clients_Allow. simpl. rewrite H.
  by destruct (Allow (time_Now s) (limiter c)).
Qed.

(** One admission check with the mutex free: the client is looked up or
    created, its last-seen time set, its bucket asked; the mutex is free
    again on both paths. *)
Lemma rateLimit_check (r : request) (reg : registry) (s : S) :
  mu reg = false ->
  let ip := realip_FromRequest r in
  let t := time_Now s in
  let c := default {| limiter := NewLimiter rps burst; lastSeen := 0 |}
             (clients reg !! ip) in
  let reg' :=
    {| mu := false;
       clients := <[ip := {| limiter := (Allow t (limiter c)).2;
                             lastSeen := t |}]> (clients reg) |} in
  handler r (reg, s) =
    if (Allow t (limiter c)).1
    then Run (trace (next r s)) (reg', final (next r s)) (out (next r s))
    else Run [WriteHeader 429; WriteBytes "rate limit exceeded"] (reg', s)
             (Val tt).
Proof.
  intros Hmu ip t c reg'.
  unfold handler, rateLimit. fold ip.
  erewrite bind_pure by (unfold mu_Lock; simpl; by rewrite Hmu).
  do 3 (erewrite bind_pure by reflexivity).
  match goal with |- (_ ≫= _) (?R, _) = _ => set (reg2 := R) end.
  assert (Hc : clients reg2 !! ip
               = Some {| limiter := limiter c; lastSeen := t |}).
  { subst reg2 c. simpl. rewrite lookup_alter_eq.
    destruct (clients reg !! ip) as [c0|] eqn:E; simpl.
    - by rewrite E.
    - by rewrite lookup_insert_eq. }
  assert (Hi : forall x, <[ip := x]> (clients reg2) = <[ip := x]> (clients reg)).
  { intros x. subst reg2. simpl. rewrite insert_alter_eq.
    destruct (clients reg !! ip); [done | by rewrite insert_insert_eq]. }
  assert (Hm : mu reg2 = true) by done.
  clearbody reg2.
  erewrite bind_pure by (apply clients_Allow_run; exact Hc).
  simpl. fold t. unfold on_clients. rewrite Hi, Hm.
  destruct (Allow t (limiter c)) as [ok lim] eqn:Ea. simpl.
  destruct ok; simpl.
  - erewrite bind_pure by reflexivity. reflexivity.
  - erewrite bind_pure by reflexivity. reflexivity.
Qed.

(** With the mutex held the check never gets past [mu.Lock()]. *)
Lemma rateLimit_blocked (r : request) (reg : registry) (s : S) :
  mu reg = true -> handler r (reg, s) = Run [] (reg, s) Blocked.
Proof.
  intros Hmu. unfold handler, rateLimit, mu_Lock. go_unfold. simpl.
  by rewrite Hmu.
Qed.
End RateLimitFacts.

Lemma checks_app {S} (h : Handler (registry * S))
    (l1 l2 : list (request * S)) (reg : registry) :
  checks h (l1 ++ l2) reg =
    ((checks h l1 reg).1 ++ (checks h l2 (checks h l1 reg).2).1,
     (checks h l2 (checks h l1 reg).2).2).
Proof.
  revert reg. induction l1 as [|[r s] l1 IH]; intros reg; simpl.
  - by destruct (checks h l2 reg).
  - rewrite IH. by destruct (checks h l1 _), (checks h l2 _).
Qed.

Lemma inject_Z_succ (n : nat) :
  (inject_Z (Z.of_nat (Datatypes.S n)) - 1 == inject_Z (Z.of_nat n))%Q.
Proof.
  rewrite Nat2Z.inj_succ. unfold Z.succ. rewrite inject_Z_plus.
  change (inject_Z 1) with 1%Q. lra.
Qed.

Section Burst.
Context {S : Type} `{!World S}.
Variable rps : Q.
Variable burst : Z.
Variable realip_FromRequest : request -> string.
Variable next : Handler S.
Variable ip : string.
Variable t : Z.

Let handler := rateLimit true rps burst realip_FromRequest next.
Let holds := holds_tokens rps burst ip t.

Hypothesis rps_pos : (0 < rps)%Q.

Lemma check_fresh (r : request) (s : S) (reg : registry) (n : nat) :
  mu reg = false -> clients reg !! ip = None ->
  burst = Z.of_nat (Datatypes.S n) ->
  realip_FromRequest r = ip -> time_Now s = t ->
  admitted next r s (handler r (reg, s))
  /\ holds n (final (handler r (reg, s))).1.
Proof.
  intros Hmu Hnone Hb Hip Ht. unfold handler.
  rewrite rateLimit_check by done. rewrite Hip, Ht, Hnone. simpl.
  pose proof (advance_new rps burst t ltac:(lra)) as Hadv.
  assert (1 <= inject_Z burst)%Q as H1.
  { change 1%Q with (inject_Z 1). rewrite <- Zle_Qle. lia. }
  rewrite Allow_admits by lra. simpl.
  split; [done |]. split; [done |].
  eexists. cbn [clients]. rewrite lookup_insert_eq. split; [done |]. simpl.
  repeat split; try done; [| lia].
  rewrite Hadv, Hb. apply inject_Z_succ.
Qed.

Lemma check_token (r : request) (s : S) (reg : registry) (n : nat) :
  holds (Datatypes.S n) reg ->
  realip_FromRequest r = ip -> time_Now s = t ->
  admitted next r s (handler r (reg, s))
  /\ holds n (final (handler r (reg, s))).1.
Proof.
  intros (Hmu & c & Hc & Hseen & Hlast & Hlim & Hbur & Htok & Hle) Hip Ht.
  unfold handler. rewrite rateLimit_check by done.
  rewrite Hip, Ht, Hc. simpl.
  assert (inject_Z (Z.of_nat (Datatypes.S n)) <= inject_Z burst)%Q as Hq
    by (rewrite <- Zle_Qle; lia).
  pose proof (advance_same_time (limiter c) t Hlast
                ltac:(rewrite Hbur; lra)) as Hadv.
  pose proof (inject_Z_succ n) as Hs.
  assert (0 <= inject_Z (Z.of_nat n))%Q as Hn0.
  { change 0%Q with (inject_Z 0). rewrite <- Zle_Qle. lia. }
  rewrite Allow_admits by lra. simpl.
  split; [done |]. split; [done |].
  eexists. cbn [clients]. rewrite lookup_insert_eq. split; [done |]. simpl.
  repeat split; try done; [lra | lia].
Qed.

Lemma check_empty (r : request) (s : S) (reg : registry) :
  holds 0%nat reg ->
  realip_FromRequest r = ip -> time_Now s = t ->
  denied s (handler r (reg, s)) /\ (final (handler r (reg, s))).1 = reg.
Proof.
  clear rps_pos.
  intros (Hmu & c & Hc & Hseen & Hlast & Hlim & Hbur & Htok & Hle) Hip Ht.
  unfold handler. rewrite rateLimit_check by done.
  rewrite Hip, Ht, Hc. simpl.
  assert (inject_Z 0 <= inject_Z burst)%Q as Hq by (rewrite <- Zle_Qle; lia).
  change (inject_Z (Z.of_nat 0)) with 0%Q in Htok.
  change (inject_Z 0) with 0%Q in Hq.
  pose proof (advance_same_time (limiter c) t Hlast
                ltac:(rewrite Hbur; lra)) as Hadv.
  rewrite Allow_refuses by lra. simpl.
  split; [done |].
  destruct reg as [m cs]. simpl in *. subst m. f_equal.
  apply insert_id. rewrite Hc. by destruct c; simpl in *; subst.
Qed.

Lemma check_refilled (r : request) (s : S) (reg : registry) :
  holds 0%nat reg -> 1 <= burst ->
  realip_FromRequest r = ip ->
  (1 <= Seconds (time_Now s - t) * rps)%Q ->
  admitted next r s (handler r (reg, s)).
Proof.
  intros (Hmu & c & Hc & Hseen & Hlast & Hlim & Hbur & Htok & Hle) Hb Hip Hw.
  unfold handler. rewrite rateLimit_check by done.
  rewrite Hip, Hc. simpl.
  assert (1 <= advance (limiter c) (time_Now s))%Q as Hadv.
  { unfold advance. rewrite Hlast, Hlim, Hbur.
    assert (1 <= inject_Z burst)%Q as H1.
    { change 1%Q with (inject_Z 1). rewrite <- Zle_Qle. lia. }
    change (inject_Z (Z.of_nat 0)) with 0%Q in Htok.
    destruct (Z.ltb_spec (time_Now s) t) as [Hlt | Hge].
    - exfalso.
      assert (Seconds (time_Now s - t) <= 0)%Q
        by (unfold Seconds, Qle; simpl; lia).
      nra.
    - destruct (Qle_bool _ _); lra. }
  rewrite Allow_admits by done. by simpl.
Qed.

Lemma checks_burst (arrivals : list (request * S)) : forall reg,
  holds (length arrivals) reg ->
  Forall (fun a => realip_FromRequest a.1 = ip /\ time_Now a.2 = t) arrivals ->
  Forall2 (fun a res => admitted next a.1 a.2 res) arrivals
          (checks handler arrivals reg).1
  /\ holds 0%nat (checks handler arrivals reg).2.
Proof.
  induction arrivals as [|[r s] rest IH]; intros reg Hh Hall; simpl in *.
  - split; [constructor | done].
  - apply Forall_cons in Hall as [[Hip Ht] Hall]. simpl in *.
    destruct (check_token r s reg (length rest) Hh Hip Ht) as [Ha Hn].
    destruct (IH _ Hn Hall) as [IH1 IH2].
    destruct (checks handler rest (final (handler r (reg, s))).1).
    simpl in *. split; [by constructor | done].
Qed.
End Burst.

(** X22.  As long as no sweep comes in between (the mutex is free and the
    checks follow one another), with the limiter enabled, burst [B >= 1]
    and rate [R > 0], and a client key that the registry does not hold: the
    first [B] checks, all at the same instant [t], let their requests
    through; the next check at [t] is refused with the rate-limit-exceeded
    response and leaves the registry exactly as the [B]-th check left it,
    so no token is taken; and a further check, once at least [1/R] seconds
    have passed since [t], lets its request through. *)
Theorem rateLimit_burst_then_refill {S} `{!World S} (rps : Q) (burst : Z)
    (realip_FromRequest : request -> string) (next : Handler S)
    (reg : registry) (ip : string) (t : Z)
    (first : list (request * S)) (r1 r2 : request) (s1 s2 : S) :
  let h := rateLimit true rps burst realip_FromRequest next in
  mu reg = false -> clients reg !! ip = None ->
  1 <= burst -> (0 < rps)%Q ->
  Z.of_nat (length first) = burst ->
  Forall (fun a => realip_FromRequest a.1 = ip /\ time_Now a.2 = t) first ->
  realip_FromRequest r1 = ip -> time_Now s1 = t ->
  realip_FromRequest r2 = ip ->
  (1 <= Seconds (time_Now s2 - t) * rps)%Q ->
  exists runs res1 res2,
    (checks h (first ++ [(r1, s1); (r2, s2)]) reg).1 = runs ++ [res1; res2]
    /\ Forall2 (fun a res => admitted next a.1 a.2 res) first runs
    /\ denied s1 res1
    /\ (final res1).1 = (checks h first reg).2
    /\ admitted next r2 s2 res2.
Proof.
  intros h Hmu Hnone Hb Hr Hlen Hall Hip1 Ht1 Hip2 Hw.
  destruct first as [|[r0 s0] rest]; [simpl in Hlen; lia |].
  apply Forall_cons in Hall as [[Hip0 Ht0] Hall]. simpl in Hip0, Ht0.
  destruct (check_fresh rps burst realip_FromRequest next ip t Hr r0 s0 reg
              (length rest) Hmu Hnone ltac:(simpl in Hlen; lia) Hip0 Ht0)
    as [Ha0 Hh0].
  destruct (checks_burst rps burst realip_FromRequest next ip t rest _ Hh0 Hall)
    as [Hrest Hzero].
  fold h in Ha0, Hh0, Hrest, Hzero.
  assert (Hfirst : checks h ((r0, s0) :: rest) reg =
                   (h r0 (reg, s0) :: (checks h rest (final (h r0 (reg, s0))).1).1,
                    (checks h rest (final (h r0 (reg, s0))).1).2)).
  { simpl. by destruct (checks h rest _). }
  set (regB := (checks h rest (final (h r0 (reg, s0))).1).2) in *.
  destruct (check_empty rps burst realip_FromRequest next ip t r1 s1 regB
              Hzero Hip1 Ht1) as [Hden Hsame].
  fold h in Hden, Hsame.
  pose proof (check_refilled rps burst realip_FromRequest next ip t Hr r2 s2 regB
                Hzero Hb Hip2 Hw) as Hadm.
  fold h in Hadm.
  exists (h r0 (reg, s0) :: (checks h rest (final (h r0 (reg, s0))).1).1),
         (h r1 (regB, s1)), (h r2 (regB, s2)).
  rewrite checks_app, Hfirst. simpl. rewrite Hsame.
  repeat split; try done; try apply Hden; try apply Hadm.
  by constructor.
Qed.

(** ** The sweeper *)

Section SweeperFacts.
Context {S : Type} `{!World S}.

Lemma sweep_run (reg : registry) (s : S) :
  mu reg = false ->
  sweep (reg, s) =
    Run [] ({| mu := true;
               clients := filter (fun kc : string * client =>
                            ¬ (time_Now s - lastSeen kc.2 > 3 * Minute))
                            (clients reg) |}, s) (Val tt).
Proof.
  intros Hmu. unfold sweep, mu_Lock, on_clients. go_unfold. simpl.
  by rewrite Hmu.
Qed.

Lemma sweep_blocked (reg : registry) (s : S) :
  mu reg = true -> sweep (reg, s) = Run [] (reg, s) Blocked.
Proof.
  intros Hmu. unfold sweep, mu_Lock. go_unfold. simpl. by rewrite Hmu.
Qed.

(** A sweep that gets the mutex keeps exactly the clients seen within the
    last three minutes. *)
Lemma sweep_removes_idle (reg : registry) (s : S) (ip : string) (c : client) :
  mu reg = false ->
  clients (final (sweep (reg, s))).1 !! ip = Some c
  <-> clients reg !! ip = Some c /\ time_Now s - lastSeen c <= 3 * Minute.
Proof.
  intros Hmu. rewrite sweep_run by done. simpl.
  rewrite map_lookup_filter_Some. simpl. split; intros [? ?]; split; auto; lia.
Qed.

Variable enabled : bool.
Variable rps : Q.
Variable burst : Z.
Variable realip_FromRequest : request -> string.
Variable next : Handler S.

Let step' := step enabled rps burst realip_FromRequest next.
Let exec' := exec enabled rps burst realip_FromRequest next.

(** Once the mutex is left held, no move changes the registry. *)
Lemma step_held (p : process S) (mv : move S) :
  mu (reg p) = true -> reg (step' p mv) = reg p.
Proof.
  intros Hmu. destruct mv as [s'| |r]; unfold step', step; [done | |].
  - destruct (wake p <=? time_Now (world p))%Z; [| done].
    by rewrite sweep_blocked.
  - cbn [reg]. destruct enabled.
    + by rewrite rateLimit_blocked.
    + reflexivity.
Qed.

Lemma exec_held (mvs : list (move S)) : forall p,
  mu (reg p) = true -> reg (exec' p mvs) = reg p.
Proof.
  induction mvs as [|mv mvs IH]; intros p Hmu; [done |]. simpl.
  unfold exec', exec in *. simpl.
  rewrite IH; fold (step' p mv); rewrite step_held; done.
Qed.
End SweeperFacts.

(** C9 (the code departs from the claim).  Take the sweeper due and the
    mutex free.  Its turn takes the mutex and ends without giving it back:
    after that turn, whatever the goroutines do and however long they wait,
    the mutex is held, the registry is as that one sweep left it, and every
    admission check parks on [mu.Lock()]: it makes no call, changes nothing
    and does not return. *)
Theorem sweep_never_unlocks {S} `{!World S} (rps : Q) (burst : Z)
    (realip_FromRequest : request -> string) (next : Handler S)
    (cs : gmap string client) (s : S) (mvs : list (move S)) (r : request) :
  let p0 := {| reg := {| mu := false; clients := cs |}; world := s;
               wake := time_Now s |} in
  let p := exec true rps burst realip_FromRequest next
             (step true rps burst realip_FromRequest next p0 Sweeper) mvs in
  reg p = {| mu := true;
             clients := filter (fun kc : string * client =>
                          ¬ (time_Now s - lastSeen kc.2 > 3 * Minute)) cs |}
  /\ rateLimit true rps burst realip_FromRequest next r (reg p, world p)
     = Run [] (reg p, world p) Blocked
  /\ sweep (reg p, world p) = Run [] (reg p, world p) Blocked.
Proof.
  intros p0 p.
  assert (Hstep : reg (step true rps burst realip_FromRequest next p0 Sweeper)
                  = {| mu := true;
                       clients := filter (fun kc : string * client =>
                          ¬ (time_Now s - lastSeen kc.2 > 3 * Minute)) cs |}).
  { unfold step, p0. cbn [wake world reg]. rewrite Z.leb_refl.
    by rewrite sweep_run. }
  assert (Hreg : reg p = {| mu := true;
                       clients := filter (fun kc : string * client =>
                          ¬ (time_Now s - lastSeen kc.2 > 3 * Minute)) cs |}).
  { unfold p. rewrite exec_held; [done | by rewrite Hstep]. }
  split; [done |]. split.
  - apply rateLimit_blocked. by rewrite Hreg.
  - apply sweep_blocked. by rewrite Hreg.
Qed.


(** C8 (the code departs from the claim).  One client is seen ten seconds
    after the start.  The sweeper runs at one minute, finds nobody idle, and
    keeps the mutex.  At five minutes the client has been idle for 290
    seconds, more than the three minutes of the threshold, and the sweeper
    has been due three more times: the client is still in the registry,
    with the bucket of its only request; the sweeper is parked on
    [mu.Lock()], and so is the next request of the client, which is
    therefore not handled as a first one. *)
Theorem sweep_runs_only_once :
  let p := sample_process in
  mu (reg p) = true
  /\ time_Now (world p) = 300 * Second
  /\ (exists c, clients (reg p) !! sample_ip = Some c
        /\ lastSeen c = 10 * Second
        /\ time_Now (world p) - lastSeen c > 3 * Minute
        /\ (lim_tokens (limiter c) == 3)%Q)
  /\ (wake p <= time_Now (world p)
      /\ out (sweep (reg p, world p)) = Blocked)
  /\ rateLimit true 2 4 sample_realip sample_quiet sample_request
       (reg p, world p)
     = Run [] (reg p, world p) Blocked.
Proof.
  intros p.
  assert (Hmu : mu (reg p) = true) by (vm_compute; reflexivity).
  split; [exact Hmu |]. split; [vm_compute; reflexivity |]. split; [| split].
  - eexists. split; [vm_compute; reflexivity |]. by vm_compute.
  - split; [by vm_compute |]. by rewrite sweep_blocked.
  - by apply rateLimit_blocked.
Qed.

(** C1 (the code departs from the claim).  Burst 2 and two tokens per
    second.  A client not seen before sends three requests at 59.8 seconds:
    two are let through and the third is refused, as the claim says.  At one
    minute the sweeper takes its first turn and keeps the mutex.  Half a
    second after the three requests, when the bucket would hold a token
    again, the further check of the client is not let through: it parks on
    [mu.Lock()], makes no call and does not return.  Likewise the very first
    check of any client that comes after the first sweep, whatever its key,
    parks, in a registry that holds no client at all. *)
Theorem rateLimit_refill_parks_behind_sweeper :
  let h := rateLimit true 2 2 sample_realip (sample_quiet : Handler Z) in
  let t := 59800000000 in
  let a := (sample_request, t) in
  let p := exec true 2 2 sample_realip sample_quiet (start 0)
             sample_burst_moves in
  Forall2 (fun (let_through : bool) res =>
             if let_through then admitted sample_quiet sample_request t res
             else denied t res)
          [true; true; false] (checks h [a; a; a] newRegistry).1
  /\ clients (reg p) = clients (checks h [a; a; a] newRegistry).2
  /\ time_Now (world p) = t + 500000000
  /\ (1 <= Seconds (time_Now (world p) - t) * 2)%Q
  /\ mu (reg p) = true
  /\ h sample_request (reg p, world p) = Run [] (reg p, world p) Blocked
  /\ ¬ admitted sample_quiet sample_request (world p)
        (h sample_request (reg p, world p))
  /\ forall (realip_FromRequest : request -> string) (next : Handler Z)
        (r : request),
       let q := exec true 2 2 realip_FromRequest next (start 0)
                  [Env (60 * Second); Sweeper; Env (61 * Second)] in
       clients (reg q) = ∅
       /\ rateLimit true 2 2 realip_FromRequest next r (reg q, world q)
          = Run [] (reg q, world q) Blocked.
Proof.
  intros h t a p.
  assert (Hmu : mu (reg p) = true) by (vm_compute; reflexivity).
  assert (Hpark : h sample_request (reg p, world p)
                  = Run [] (reg p, world p) Blocked)
    by (apply rateLimit_blocked; exact Hmu).
  split.
  { vm_compute. repeat constructor. }
  split; [vm_compute; reflexivity |]. split; [vm_compute; reflexivity |].
  split; [unfold Qle; vm_compute; discriminate |].
  split; [exact Hmu |]. split; [exact Hpark |]. split.
  { intros (_ & Hout & _). rewrite Hpark in Hout. discriminate Hout. }
  intros realip_FromRequest next r q.
  assert (Hq : reg q = {| mu := true; clients := ∅ |}).
  { unfold q, exec. cbn [fold_left]. unfold start, step.
    cbn [wake world reg]. change (time_Now (60 * Second)) with (60 * Second).
    change (time_Now 0 + Minute) with (60 * Second).
    rewrite Z.leb_refl. rewrite sweep_run by reflexivity.
    cbn [out final fst snd reg]. f_equal. }
  split; [rewrite Hq; reflexivity |].
  apply rateLimit_blocked. rewrite Hq. reflexivity.
Qed.

(** * The theorems at sample inputs *)

(** Burst 2 and two tokens per second: two checks at the fifth second, a
    third one refused, and one more let through half a second later. *)
Lemma rateLimit_burst_then_refill_witness :
  let h := rateLimit true 2 2 sample_realip sample_quiet in
  let a := (sample_request, 5 * Second) in
  (mu newRegistry = false /\ clients newRegistry !! sample_ip = None
   /\ (1 <= Seconds (5500000000 - 5 * Second) * 2)%Q)
  /\ exists runs res1 res2,
       (checks h ([a; a] ++ [a; (sample_request, 5500000000)]) newRegistry).1
         = runs ++ [res1; res2]
       /\ Forall2 (fun a res => admitted sample_quiet a.1 a.2 res) [a; a] runs
       /\ denied (5 * Second) res1
       /\ (final res1).1 = (checks h [a; a] newRegistry).2
       /\ admitted sample_quiet sample_request 5500000000 res2.
Proof.
  intros h a.
  assert (Hw : (1 <= Seconds (5500000000 - 5 * Second) * 2)%Q)
    by (unfold Qle; vm_compute; discriminate).
  split; [split; [reflexivity | split; [apply lookup_empty | exact Hw]] |].
  apply (rateLimit_burst_then_refill 2 2 sample_realip sample_quiet
           newRegistry sample_ip (5 * Second) [a; a]
           sample_request sample_request (5 * Second) 5500000000).
  - reflexivity.
  - apply lookup_empty.
  - lia.
  - reflexivity.
  - reflexivity.
  - repeat constructor.
  - reflexivity.
  - reflexivity.
  - reflexivity.
  - exact Hw.
Defined.


(** The token of the sample user, a token that makes the store fail, and a
    token the store does not know; the next stage answers with the identity
    it finds. *)
Lemma authenticate_lookup_outcomes_witness :
  let r := sample_with_header "GET" "Authorization"
             "Bearer ABCDEFGHIJKLMNOPQRSTUVWXYZ" None in
  let r' := sample_with_header "GET" "Authorization"
              "Bearer AAAAAAAAAAAAAAAAAAAAAAAAAA" None in
  let r'' := sample_with_header "GET" "Authorization"
               "Bearer BBBBBBBBBBBBBBBBBBBBBBBBBB" None in
  (Split "Bearer ABCDEFGHIJKLMNOPQRSTUVWXYZ" = ["Bearer"; sample_token]
   /\ sample_shape sample_token = true)
  /\ authenticate sample_shape sample_whoami r 0
     = Run [HeaderAdd "Vary" "Authorization";
            GetForToken "authentication" sample_token; WriteBytes "7"]
           0 (Val tt)
  /\ authenticate sample_shape sample_whoami r' 0
     = Run [HeaderAdd "Vary" "Authorization";
            GetForToken "authentication" "AAAAAAAAAAAAAAAAAAAAAAAAAA";
            LogError "query: connection refused" []; WriteHeader 500;
            WriteBytes "the server encountered a problem and could not process your request"]
           0 (Val tt)
  /\ authenticate sample_shape sample_whoami r'' 0
     = Run [HeaderAdd "Vary" "Authorization";
            GetForToken "authentication" "BBBBBBBBBBBBBBBBBBBBBBBBBB";
            WriteHeader 401;
            WriteBytes "invalid or missing authentication token"]
           0 (Val tt).
Proof.
  intros r r' r''. split; [split; reflexivity |]. split; [| split].
  - assert (Hne : Header_Get (Headers r) "Authorization" ≠ "")
      by (vm_compute; discriminate).
    assert (Ha : Users_answer 0 "authentication" sample_token
                 = inl sample_user) by reflexivity.
    destruct (proj2 (proj2 (authenticate_lookup_outcomes sample_shape
                sample_whoami r 0 sample_token Hne eq_refl eq_refl))
                sample_user Ha) as (_ & _ & _ & E).
    rewrite E. reflexivity.
  - assert (Hne : Header_Get (Headers r') "Authorization" ≠ "")
      by (vm_compute; discriminate).
    apply (proj1 (proj2 (authenticate_lookup_outcomes sample_shape
             sample_whoami r' 0 "AAAAAAAAAAAAAAAAAAAAAAAAAA" Hne
             eq_refl eq_refl))
             (ErrWrap "query" (ErrOther "connection refused"))).
    + reflexivity.
    + reflexivity.
  - assert (Hne : Header_Get (Headers r'') "Authorization" ≠ "")
      by (vm_compute; discriminate).
    apply (proj1 (authenticate_lookup_outcomes sample_shape
             sample_whoami r'' 0 "BBBBBBBBBBBBBBBBBBBBBBBBBB" Hne
             eq_refl eq_refl) ErrRecordNotFound).
    + reflexivity.
    + reflexivity.
Defined.

(** An anonymous request, a user who is not activated, and the sample user
    behind a code he lacks and behind one he holds. *)
Lemma requirePermission_order_witness :
  let anonymous := sample_with_header "GET" "Accept" "*/*" (Some AnonymousUser) in
  let inactive := sample_with_header "GET" "Accept" "*/*"
                    (Some (Authenticated {| ID := 9; Activated := false |})) in
  let active := sample_with_header "GET" "Accept" "*/*"
                  (Some (Authenticated sample_user)) in
  requirePermission "movies:write" sample_quiet anonymous 0
    = Run [WriteHeader 401;
           WriteBytes "you must be authenticated to access this resource"]
          0 (Val tt)
  /\ requirePermission "movies:write" sample_quiet inactive 0
     = Run [WriteHeader 403;
            WriteBytes "your user account must be activated to access this resource"]
           0 (Val tt)
  /\ requirePermission "movies:write" sample_quiet active 0
     = Run [GetAllForUser 7; WriteHeader 403;
            WriteBytes "your user account doesn't have the necessary permissions to access this resource"]
           0 (Val tt)
  /\ requirePermission "movies:read" sample_quiet active 0
     = Run [GetAllForUser 7] 0 (Val tt).
Proof.
  intros anonymous inactive active. split; [| split; [| split]].
  - apply (proj1 (requirePermission_order "movies:write" sample_quiet
                    anonymous 0)).
    reflexivity.
  - apply (proj1 (proj2 (requirePermission_order "movies:write" sample_quiet
                           inactive 0))
             {| ID := 9; Activated := false |}); reflexivity.
  - destruct (requirePermission_order "movies:write" sample_quiet active 0)
      as (_ & _ & H).
    destruct (H sample_user eq_refl eq_refl) as [_ Hp].
    destruct (Hp ["movies:read"] eq_refl) as [Hd _].
    apply Hd. reflexivity.
  - destruct (requirePermission_order "movies:read" sample_quiet active 0)
      as (_ & _ & H).
    destruct (H sample_user eq_refl eq_refl) as [_ Hp].
    destruct (Hp ["movies:read"] eq_refl) as [_ Ha].
    apply Ha. reflexivity.
Defined.

(** A preflight request from a trusted origin, and the same request from
    another origin. *)
Lemma enableCORS_preflight_and_untrusted_witness :
  let trusted := ["https://app.example.com"; "https://admin.example.com"] in
  let preflight origin :=
    {| Method := "OPTIONS";
       Headers := {[ "Origin" := [origin];
                     "Access-Control-Request-Method" := ["PUT"] ]};
       ctxUser := None |} in
  enableCORS trusted sample_quiet (preflight "https://admin.example.com") 0
    = Run [HeaderAdd "Vary" "Origin";
           HeaderAdd "Vary" "Access-Control-Request-Method";
           HeaderSet "Access-Control-Allow-Origin" "https://admin.example.com";
           HeaderSet "Access-Control-Allow-Methods" "OPTIONS, PUT, PATCH, DELETE";
           HeaderSet "Access-Control-Allow-Headers" "Authorization, Content-Type";
           WriteHeader 200] 0 (Val tt)
  /\ enableCORS trusted sample_quiet (preflight "https://evil.example.com") 0
     = Run [HeaderAdd "Vary" "Origin";
            HeaderAdd "Vary" "Access-Control-Request-Method"] 0 (Val tt).
Proof.
  intros trusted preflight. split.
  - apply (proj1 (enableCORS_preflight_and_untrusted trusted sample_quiet
                    (preflight "https://admin.example.com") 0)).
    + vm_compute. discriminate.
    + vm_compute. right. left. reflexivity.
    + reflexivity.
    + vm_compute. discriminate.
  - apply (proj2 (enableCORS_preflight_and_untrusted trusted sample_quiet
                    (preflight "https://evil.example.com") 0)).
    right. vm_compute. intros [H | [H | []]]; discriminate H.
Defined.

(** Three requests to a handler that writes a body without calling
    [WriteHeader]. *)
Lemma metrics_counters_agree_witness :
  let next : Handler Z := fun _ => emit (WriteBytes "{}") in
  let rs := [sample_request; sample_request; sample_request] in
  let m := (serve (metrics next) rs (newMetricsVars, 0)).2.1 in
  Forall completed (serve (metrics next) rs (newMetricsVars, 0)).1
  /\ totalRequestsReceived m = 3
  /\ totalResponsesSent m = 3
  /\ total (totalResponsesSentByStatus m) = 3
  /\ totalResponsesSentByStatus m !! "200" = Some 3.
Proof.
  intros next rs m.
  assert (Hall : Forall completed (serve (metrics next) rs (newMetricsVars, 0)).1)
    by (vm_compute; repeat constructor).
  split; [exact Hall |].
  destruct (metrics_counters_agree next rs 0 ltac:(vm_compute; reflexivity) Hall)
    as (_ & Hr & Hs & Ht & _).
  split; [exact Hr |]. split; [exact Hs |]. split; [exact Ht |].
  vm_compute. reflexivity.
Defined.

(** A handler that sets a header and panics. *)
Lemma recoverPanic_catches_witness :
  out (sample_panicking sample_request 0) = Panicked "boom"
  /\ recoverPanic sample_panicking sample_request 0
     = Run [HeaderSet "Content-Type" "application/json";
            LogError "err" [LogValue "boom"; LogValue "stack"; LogStack];
            HeaderSet "Connection" "close"; LogError "boom" [];
            WriteHeader 500;
            WriteBytes "the server encountered a problem and could not process your request"]
           0 (Val tt).
Proof.
  split; [reflexivity |].
  apply (proj1 (recoverPanic_catches sample_panicking sample_request 0 "boom"
                  eq_refl)).
Defined.

(** The same handler behind the metrics stage, after two requests. *)
Lemma metrics_skips_panicking_request_witness :
  let h := recoverPanic (metrics sample_panicking) in
  let st := (serve h [sample_request; sample_request] (newMetricsVars, 0)).2 in
  let res := h sample_request (st.1, st.2) in
  out (sample_panicking sample_request st.2) = Panicked "boom"
  /\ out res = Val tt
  /\ totalRequestsReceived (final res).1 = 3
  /\ totalResponsesSent (final res).1 = 0
  /\ totalResponsesSent (final res).1 < totalRequestsReceived (final res).1.
Proof.
  intros h st res. split; [reflexivity |].
  destruct (metrics_skips_panicking_request sample_panicking sample_request
              st.1 st.2 "boom" eq_refl) as (E & Hr & Hs & _ & _ & Hlt).
  fold h in E, Hr, Hs, Hlt. fold res in E, Hr, Hs, Hlt.
  split; [by rewrite E |]. split; [rewrite Hr; vm_compute; reflexivity |].
  split; [rewrite Hs; vm_compute; reflexivity |].
  apply (Hlt [sample_request; sample_request] 0); vm_compute; reflexivity.
Defined.

(** * Further properties *)

(** ** rateLimit: what a check does to the registry *)

Section RegistryFacts.
Context {S : Type} `{!World S}.
Variable rps : Q.
Variable burst : Z.
Variable realip_FromRequest : request -> string.
Variable next : Handler S.

Let handler := rateLimit true rps burst realip_FromRequest next.

(** The registry after a check that found the mutex free. *)
Lemma rateLimit_registry (r : request) (reg : registry) (s : S) :
  mu reg = false ->
  exists c,
    (final (handler r (reg, s))).1
    = {| mu := false;
         clients := <[realip_FromRequest r := c]> (clients reg) |}
    /\ lastSeen c = time_Now s.
Proof.
  intros Hmu. unfold handler. rewrite rateLimit_check by done.
  eexists. split; [by destruct (Allow _ _).1 | done].
Qed.

(** A check lets the request through or refuses it. *)
Lemma rateLimit_decides (r : request) (reg : registry) (s : S) :
  mu reg = false ->
  admitted next r s (handler r (reg, s)) \/ denied s (handler r (reg, s)).
Proof.
  intros Hmu. unfold handler. rewrite rateLimit_check by done.
  destruct (Allow _ _).1; [left | right]; done.
Qed.
End RegistryFacts.

(** X1.  A check that finds the mutex free, whether it admits or refuses
    and whether the downstream handler returns or panics, leaves the mutex
    free, holds an entry for the client with its last-seen time set to the
    time of the check, and leaves the entry of every other client as it
    was: the registry gains at most this one key. *)
Theorem rateLimit_registers_client {S} `{!World S} (rps : Q) (burst : Z)
    (realip_FromRequest : request -> string) (next : Handler S)
    (r : request) (reg : registry) (s : S) :
  mu reg = false ->
  let reg' := (final (rateLimit true rps burst realip_FromRequest next r
                        (reg, s))).1 in
  mu reg' = false
  /\ (exists c, clients reg' !! realip_FromRequest r = Some c
        /\ lastSeen c = time_Now s)
  /\ (forall ip, ip ≠ realip_FromRequest r ->
        clients reg' !! ip = clients reg !! ip)
  /\ dom (clients reg') = {[realip_FromRequest r]} ∪ dom (clients reg).
Proof.
  intros Hmu reg'.
  destruct (rateLimit_registry rps burst realip_FromRequest next r reg s Hmu)
    as (c & Hreg & Hseen).
  subst reg'. rewrite Hreg. cbn [mu clients].
  split; [done |]. split; [| split].
  - exists c. by rewrite lookup_insert_eq.
  - intros ip Hne. by rewrite lookup_insert_ne.
  - apply dom_insert_L.
Qed.

Lemma rateLimit_registers_client_witness :
  let reg' := (final (rateLimit true 2 4 sample_realip sample_panicking
                        sample_request (newRegistry, 7 * Second))).1 in
  mu newRegistry = false
  /\ mu reg' = false
  /\ (exists c, clients reg' !! sample_ip = Some c /\ lastSeen c = 7 * Second)
  /\ dom (clients reg') = {[sample_ip]} ∪ dom (clients newRegistry).
Proof.
  intros reg'. split; [reflexivity |].
  destruct (rateLimit_registers_client 2 4 sample_realip sample_panicking
              sample_request newRegistry (7 * Second) eq_refl)
    as (H1 & H2 & _ & H4).
  split; [exact H1 |]. split; [exact H2 | exact H4].
Defined.

(** X2.  Without the sweeper, no request waits for the mutex: however many
    requests arrive and whatever the downstream handler does with the ones
    let through, each check either lets its request through or refuses it,
    and the mutex is free after the last one. *)
Theorem rateLimit_never_blocks_alone {S} `{!World S} (rps : Q) (burst : Z)
    (realip_FromRequest : request -> string) (next : Handler S)
    (arrivals : list (request * S)) (reg : registry) :
  let h := rateLimit true rps burst realip_FromRequest next in
  mu reg = false ->
  mu (checks h arrivals reg).2 = false
  /\ Forall2 (fun a res => admitted next a.1 a.2 res \/ denied a.2 res)
       arrivals (checks h arrivals reg).1.
Proof.
  intros h. revert reg.
  induction arrivals as [|[r s] rest IH]; intros reg Hmu.
  - split; [done | constructor].
  - cbn [checks].
    destruct (rateLimit_registry rps burst realip_FromRequest next r reg s Hmu)
      as (c & Hreg & _).
    pose proof (rateLimit_decides rps burst realip_FromRequest next r reg s Hmu)
      as Hdec.
    fold h in Hreg, Hdec.
    destruct (IH (final (h r (reg, s))).1) as [IH1 IH2];
      [by rewrite Hreg |].
    destruct (checks h rest (final (h r (reg, s))).1) as [runs reg'].
    split; [exact IH1 | by constructor].
Qed.

Lemma rateLimit_never_blocks_alone_witness :
  let h := rateLimit true 2 1 sample_realip sample_panicking in
  let arrivals := [(sample_request, 0); (sample_request, 0);
                   (sample_request, Second)] in
  mu newRegistry = false
  /\ mu (checks h arrivals newRegistry).2 = false
  /\ Forall2 (fun a res => admitted sample_panicking a.1 a.2 res
                           \/ denied a.2 res)
       arrivals (checks h arrivals newRegistry).1.
Proof.
  intros h arrivals. split; [reflexivity |].
  apply (rateLimit_never_blocks_alone 2 1 sample_realip sample_panicking
           arrivals newRegistry).
  reflexivity.
Defined.

(** X3.  Clients do not use up each other's tokens: a check for one client
    changes nothing in what a check for a client with another key does
    afterwards, neither the decision nor the run nor the entry it leaves
    for that client. *)
Theorem rateLimit_clients_isolated {S} `{!World S} (rps : Q) (burst : Z)
    (realip_FromRequest : request -> string) (next : Handler S)
    (r r' : request) (reg : registry) (s s' : S) :
  let h := rateLimit true rps burst realip_FromRequest next in
  mu reg = false ->
  realip_FromRequest r ≠ realip_FromRequest r' ->
  let reg1 := (final (h r (reg, s))).1 in
  trace (h r' (reg1, s')) = trace (h r' (reg, s'))
  /\ out (h r' (reg1, s')) = out (h r' (reg, s'))
  /\ (final (h r' (reg1, s'))).2 = (final (h r' (reg, s'))).2
  /\ clients (final (h r' (reg1, s'))).1 !! realip_FromRequest r'
     = clients (final (h r' (reg, s'))).1 !! realip_FromRequest r'.
Proof.
  intros h Hmu Hne reg1.
  destruct (rateLimit_registry rps burst realip_FromRequest next r reg s Hmu)
    as (c & Hreg & _).
  fold h in Hreg. subst reg1. rewrite Hreg. unfold h.
  rewrite !rateLimit_check by done. cbn [clients].
  rewrite lookup_insert_ne by done.
  destruct (Allow _ _).1; cbn [trace out final fst snd clients];
    by rewrite !lookup_insert_eq.
Qed.

Lemma rateLimit_clients_isolated_witness :
  let realip (r : request) := Header_Get (Headers r) "X-Real-Ip" in
  let h := rateLimit true 1 1 realip sample_quiet in
  let a := sample_with_header "GET" "X-Real-Ip" "10.0.0.1" None in
  let b := sample_with_header "GET" "X-Real-Ip" "10.0.0.2" None in
  let reg1 := (final (h a (newRegistry, 0))).1 in
  realip a ≠ realip b
  /\ out (h b (reg1, 0)) = out (h b (newRegistry, 0))
  /\ trace (h b (reg1, 0)) = [].
Proof.
  intros realip h a b reg1.
  assert (Hne : realip a ≠ realip b) by (vm_compute; discriminate).
  split; [exact Hne |].
  destruct (rateLimit_clients_isolated 1 1 realip sample_quiet a b
              newRegistry 0 0 eq_refl Hne) as (Ht & Ho & _).
  split; [exact Ho |].
  etransitivity; [exact Ht | vm_compute; reflexivity].
Defined.

(** ** rateLimit with the limiter disabled *)

Section DisabledFacts.
Context {S : Type} `{!World S}.
Variable rps : Q.
Variable burst : Z.
Variable realip_FromRequest : request -> string.
Variable next : Handler S.

Lemma exec_disabled_empty (mvs : list (move S)) : forall p,
  clients (reg p) = ∅ ->
  clients (reg (exec false rps burst realip_FromRequest next p mvs)) = ∅.
Proof.
  induction mvs as [|mv mvs IH]; intros p He; [done |].
  unfold exec in *. cbn [fold_left]. apply IH.
  destruct mv as [s'| |r]; unfold step; [done | | done].
  destruct (wake p <=? time_Now (world p))%Z; [| done].
  destruct (mu (reg p)) eqn:Hmu.
  - by rewrite sweep_blocked.
  - rewrite sweep_run by done. cbn [out final fst reg clients].
    rewrite He. apply map_filter_empty.
Qed.
End DisabledFacts.

(** X4.  With the limiter disabled the handler takes no part in the
    registry: whatever the requests, the clock and the sweeper did since the
    start, the registry holds no client, and a request goes straight to the
    downstream handler, also when the sweeper has kept the mutex. *)
Theorem rateLimit_disabled_passes {S} `{!World S} (rps : Q) (burst : Z)
    (realip_FromRequest : request -> string) (next : Handler S)
    (s0 : S) (mvs : list (move S)) (r : request) :
  let p := exec false rps burst realip_FromRequest next (start s0) mvs in
  clients (reg p) = ∅
  /\ rateLimit false rps burst realip_FromRequest next r (reg p, world p)
     = Run (trace (next r (world p))) (reg p, final (next r (world p)))
           (out (next r (world p))).
Proof.
  intros p. split; [| reflexivity].
  by apply exec_disabled_empty.
Qed.

(** ** The sweep *)

(** X5.  A sweep that gets the mutex returns, deletes every client not seen
    for more than three minutes and keeps every other client as it is; a
    client seen exactly three minutes before is kept.  No client is added. *)
Theorem sweep_keeps_recent {S} `{!World S} (reg : registry) (s : S) :
  mu reg = false ->
  let res := sweep (reg, s) in
  out res = Val tt
  /\ (final res).2 = s
  /\ (forall ip c,
        clients (final res).1 !! ip = Some c
        <-> clients reg !! ip = Some c
            /\ time_Now s - lastSeen c <= 3 * Minute)
  /\ (forall ip c,
        clients reg !! ip = Some c ->
        time_Now s - lastSeen c > 3 * Minute ->
        clients (final res).1 !! ip = None)
  /\ dom (clients (final res).1) ⊆ dom (clients reg).
Proof.
  intros Hmu res. subst res. rewrite sweep_run by done.
  cbn [out final fst snd clients].
  split; [done |]. split; [done |]. split; [| split].
  - intros ip c. rewrite map_lookup_filter_Some. cbn [snd].
    split; intros [H1 H2]; (split; [done | lia]).
  - intros ip c Hc Hold. apply map_lookup_filter_None. right.
    intros c' Hc' Hkeep. cbn [snd] in Hkeep.
    rewrite Hc in Hc'. injection Hc' as <-. lia.
  - apply dom_filter_subseteq.
Qed.

Lemma sweep_keeps_recent_witness :
  let old := {| limiter := NewLimiter 2 4; lastSeen := 0 |} in
  let edge := {| limiter := NewLimiter 2 4; lastSeen := 20 * Second |} in
  let reg := {| mu := false;
                clients := {[ "10.0.0.1" := old; "10.0.0.2" := edge ]} |} in
  let res := sweep (reg, 200 * Second) in
  mu reg = false
  /\ out res = Val tt
  /\ clients (final res).1 !! "10.0.0.1" = None
  /\ clients (final res).1 !! "10.0.0.2" = Some edge.
Proof.
  intros old edge reg res. split; [reflexivity |].
  destruct (sweep_keeps_recent reg (200 * Second) eq_refl)
    as (Ho & _ & Hkeep & Hdrop & _).
  split; [exact Ho |]. split.
  - apply (Hdrop "10.0.0.1" old); [reflexivity | vm_compute; reflexivity].
  - apply (Hkeep "10.0.0.2" edge). split; [reflexivity | vm_compute; discriminate].
Defined.

(** ** authenticate: the shape of the header *)

Lemma Split_length (s : string) : length (Split s) = Datatypes.S (spaces s).
Proof.
  induction s as [|c rest IH]; [reflexivity |]. cbn [Split spaces].
  destruct (Ascii.eqb c " "); cbn [length]; [by rewrite IH |].
  destruct (Split rest) as [|p ps]; [discriminate IH | exact IH].
Qed.

Lemma Split_one (s b : string) : Split s = [b] -> s = b.
Proof.
  revert b. induction s as [|c rest IH]; intros b H.
  - by injection H.
  - cbn [Split] in H. destruct (Ascii.eqb c " ") eqn:E.
    + pose proof (Split_length rest) as Hl.
      injection H as _ H. rewrite H in Hl. discriminate Hl.
    + destruct (Split rest) as [|p ps] eqn:Er.
      * pose proof (Split_length rest) as Hl. rewrite Er in Hl. discriminate Hl.
      * injection H as <- ->. by rewrite (IH p eq_refl).
Qed.

Lemma Split_two (s a b : string) :
  Split s = [a; b] -> s = (a ++ " " ++ b)%string.
Proof.
  revert a. induction s as [|c rest IH]; intros a H; [discriminate H |].
  cbn [Split] in H. destruct (Ascii.eqb_spec c " ") as [-> | Hc].
  - injection H as <- H. by rewrite (Split_one _ _ H).
  - destruct (Split rest) as [|p ps] eqn:Er; [discriminate H |].
    injection H as <- ->. by rewrite (IH p eq_refl).
Qed.

Lemma Split_no_space (s : string) : spaces s = 0%nat -> Split s = [s].
Proof.
  induction s as [|c rest IH]; intros H; [reflexivity |].
  cbn [Split spaces] in *. destruct (Ascii.eqb c " "); [discriminate H |].
  by rewrite IH.
Qed.

Lemma Split_Bearer (token : string) :
  Split ("Bearer " ++ token) = "Bearer" :: Split token.
Proof. reflexivity. Qed.

Lemma spaces_Bearer (token : string) :
  spaces ("Bearer " ++ token) = Datatypes.S (spaces token).
Proof. reflexivity. Qed.

Section AuthenticateCases.
Context {S : Type} `{!World S}.
Variable ValidateTokenPlaintext : string -> bool.
Variable next : Handler S.

(** The three ways through [authenticate]. *)
Lemma authenticate_cases (r : request) (s : S) :
  let h := Header_Get (Headers r) "Authorization" in
  (h = ""
   /\ authenticate ValidateTokenPlaintext next r s
      = after [HeaderAdd "Vary" "Authorization"]
              (next (contextSetUser r AnonymousUser) s))
  \/ (h ≠ ""
      /\ (length (Split h) ≠ 2%nat \/ nth 0 (Split h) "" ≠ "Bearer"
          \/ ValidateTokenPlaintext (nth 1 (Split h) "") = false)
      /\ authenticate ValidateTokenPlaintext next r s
         = Run [HeaderAdd "Vary" "Authorization"; WriteHeader 401;
                WriteBytes "invalid or missing authentication token"]
               s (Val tt))
  \/ (exists token,
        h ≠ "" /\ Split h = ["Bearer"; token]
        /\ ValidateTokenPlaintext token = true
        /\ authenticate ValidateTokenPlaintext next r s
           = match Users_answer s ScopeAuthentication token with
             | inl user =>
                 after [HeaderAdd "Vary" "Authorization";
                        GetForToken ScopeAuthentication token]
                       (next (contextSetUser r (Authenticated user)) s)
             | inr err =>
                 if errors_Is_ErrRecordNotFound err then
                   Run [HeaderAdd "Vary" "Authorization";
                        GetForToken ScopeAuthentication token; WriteHeader 401;
                        WriteBytes "invalid or missing authentication token"]
                       s (Val tt)
                 else
                   Run [HeaderAdd "Vary" "Authorization";
                        GetForToken ScopeAuthentication token;
                        LogError (Error err) []; WriteHeader 500;
                        WriteBytes "the server encountered a problem and could not process your request"]
                       s (Val tt)
             end).
Proof.
  intros h.
  destruct (decide (h = "")) as [He | Hne].
  { left. split; [done |]. by apply authenticate_no_header. }
  right.
  destruct (decide (length (Split h) = 2%nat)) as [Hl | Hl]; cycle 1.
  { left. split; [done |]. split; [by left |].
    apply authenticate_malformed; [done | by left]. }
  destruct (decide (nth 0 (Split h) "" = "Bearer")) as [Hs | Hs]; cycle 1.
  { left. split; [done |]. split; [by right; left |].
    apply authenticate_malformed; [done | by right]. }
  destruct (ValidateTokenPlaintext (nth 1 (Split h) "")) eqn:Hv; cycle 1.
  { left. split; [done |]. split; [by right; right |].
    by apply authenticate_bad_shape. }
  right. exists (nth 1 (Split h) "").
  assert (Hsp : Split h = ["Bearer"; nth 1 (Split h) ""]).
  { destruct (Split h) as [|a [|b [|c l]]]; try discriminate Hl.
    cbn [nth] in *. by subst a. }
  split; [done |]. split; [done |]. split; [done |].
  by apply authenticate_lookup.
Qed.
End AuthenticateCases.

(** X6.  The token-resolution collaborator is asked only about a header
    that reads exactly [Bearer], one space, and a token without a space
    that passes the shape check, and then with the authentication scope and
    exactly that token; any other call in the run was made downstream. *)
Theorem authenticate_looks_up_only_bearer {S} `{!World S}
    (ValidateTokenPlaintext : string -> bool) (next : Handler S)
    (r : request) (s : S) (scope token : string) :
  In (GetForToken scope token)
     (trace (authenticate ValidateTokenPlaintext next r s)) ->
  (scope = "authentication"
   /\ Header_Get (Headers r) "Authorization" = ("Bearer " ++ token)%string
   /\ spaces token = 0%nat
   /\ ValidateTokenPlaintext token = true)
  \/ exists i, In (GetForToken scope token)
                  (trace (next (contextSetUser r i) s)).
Proof.
  intros Hin.
  destruct (authenticate_cases ValidateTokenPlaintext next r s)
    as [[_ E] | [(_ & _ & E) | (tok & Hne & Hsp & Hv & E)]];
    rewrite E in Hin; clear E.
  - right. exists AnonymousUser. cbn [after trace app] in Hin.
    destruct Hin as [Hin | Hin]; [discriminate Hin | exact Hin].
  - absent_from_trace Hin.
  - assert (Hfmt : Header_Get (Headers r) "Authorization"
                   = ("Bearer " ++ tok)%string /\ spaces tok = 0%nat).
    { pose proof (Split_two _ _ _ Hsp
                  : Header_Get (Headers r) "Authorization"
                    = ("Bearer " ++ tok)%string) as Hh.
      split; [exact Hh |].
      pose proof (Split_length (Header_Get (Headers r) "Authorization")) as Hl.
      rewrite Hsp in Hl. rewrite Hh, spaces_Bearer in Hl.
      cbn [length] in Hl. lia. }
    destruct (Users_answer s ScopeAuthentication tok) as [u | err].
    + cbn [after trace app] in Hin.
      destruct Hin as [Hin | [Hin | Hin]]; [discriminate Hin | |].
      * injection Hin as <- <-. left. by destruct Hfmt.
      * right. by exists (Authenticated u).
    + left.
      assert (GetForToken ScopeAuthentication tok = GetForToken scope token)
        as Heq.
      { destruct (errors_Is_ErrRecordNotFound err); cbn [trace] in Hin;
          (destruct Hin as [Hin | [Hin | Hin]];
           [discriminate Hin | exact Hin | absent_from_trace Hin]). }
      injection Heq as <- <-. by destruct Hfmt.
Qed.

Lemma authenticate_looks_up_only_bearer_witness :
  let r := sample_with_header "GET" "Authorization"
             "Bearer ABCDEFGHIJKLMNOPQRSTUVWXYZ" None in
  In (GetForToken "authentication" sample_token)
     (trace (authenticate sample_shape sample_quiet r 0))
  /\ ((Header_Get (Headers r) "Authorization"
       = ("Bearer " ++ sample_token)%string
       /\ spaces sample_token = 0%nat)
      \/ exists i, In (GetForToken "authentication" sample_token)
                      (trace (sample_quiet (contextSetUser r i) 0))).
Proof.
  intros r.
  assert (Hin : In (GetForToken "authentication" sample_token)
                   (trace (authenticate sample_shape sample_quiet r 0)))
    by (right; left; reflexivity).
  split; [exact Hin |].
  destruct (authenticate_looks_up_only_bearer sample_shape sample_quiet r 0
              "authentication" sample_token Hin) as [(_ & H1 & H2 & _) | H].
  - left. split; [exact H1 | exact H2].
  - right. exact H.
Defined.

(** X7.  For a header [Bearer], one space, and a token: a token without a
    space that passes the shape check is looked up, right after the [Vary]
    header is added; a token with a space in it is refused with the
    invalid-authentication-token response, whatever the shape check and the
    store would say. *)
Theorem authenticate_bearer_header {S} `{!World S}
    (ValidateTokenPlaintext : string -> bool) (next : Handler S)
    (r : request) (s : S) (token : string) :
  Header_Get (Headers r) "Authorization" = ("Bearer " ++ token)%string ->
  (spaces token = 0%nat -> ValidateTokenPlaintext token = true ->
   exists rest,
     trace (authenticate ValidateTokenPlaintext next r s)
     = HeaderAdd "Vary" "Authorization"
         :: GetForToken "authentication" token :: rest)
  /\ (spaces token ≠ 0%nat ->
      authenticate ValidateTokenPlaintext next r s
      = Run [HeaderAdd "Vary" "Authorization"; WriteHeader 401;
             WriteBytes "invalid or missing authentication token"]
            s (Val tt)).
Proof.
  intros Hh.
  assert (Hne : Header_Get (Headers r) "Authorization" ≠ "")
    by (rewrite Hh; discriminate).
  split.
  - intros Hsp Hv.
    rewrite (authenticate_lookup ValidateTokenPlaintext next r s token Hne);
      [| by rewrite Hh, Split_Bearer, Split_no_space | done].
    destruct (Users_answer s ScopeAuthentication token) as [u | err].
    + by eexists.
    + destruct (errors_Is_ErrRecordNotFound err); by eexists.
  - intros Hsp. apply authenticate_malformed; [done |]. left.
    rewrite Hh, Split_length, spaces_Bearer. lia.
Qed.

Lemma authenticate_bearer_header_witness :
  let r := sample_with_header "GET" "Authorization"
             "Bearer ABCDEFGHIJKLM NOPQRSTUVWXYZ" None in
  Header_Get (Headers r) "Authorization"
    = ("Bearer " ++ "ABCDEFGHIJKLM NOPQRSTUVWXYZ")%string
  /\ spaces "ABCDEFGHIJKLM NOPQRSTUVWXYZ" ≠ 0%nat
  /\ authenticate (fun _ => true) sample_quiet r 0
     = Run [HeaderAdd "Vary" "Authorization"; WriteHeader 401;
            WriteBytes "invalid or missing authentication token"] 0 (Val tt).
Proof.
  intros r. split; [reflexivity |]. split; [vm_compute; discriminate |].
  apply (proj2 (authenticate_bearer_header (fun _ => true) sample_quiet r 0
                  "ABCDEFGHIJKLM NOPQRSTUVWXYZ" eq_refl)).
  vm_compute. discriminate.
Defined.

(** X8.  [authenticate] decides from the headers alone: an identity that
    the incoming request already carries in its context is never read and
    is replaced, so two requests with the same method and headers are
    handled alike. *)
Theorem authenticate_overrides_identity {S} `{!World S}
    (ValidateTokenPlaintext : string -> bool) (next : Handler S)
    (r r' : request) (s : S) :
  Method r = Method r' -> Headers r = Headers r' ->
  authenticate ValidateTokenPlaintext next r s
  = authenticate ValidateTokenPlaintext next r' s.
Proof.
  intros Hm Hh. destruct r as [m h c], r' as [m' h' c'].
  cbn [Method Headers] in Hm, Hh. subst m' h'. reflexivity.
Qed.

Lemma authenticate_overrides_identity_witness :
  let forged := sample_with_header "GET" "Accept" "*/*"
                  (Some (Authenticated sample_user)) in
  let plain := sample_with_header "GET" "Accept" "*/*" None in
  Headers forged = Headers plain
  /\ authenticate sample_shape (requirePermission "movies:read" sample_quiet)
       forged 0
     = Run [HeaderAdd "Vary" "Authorization"; WriteHeader 401;
            WriteBytes "you must be authenticated to access this resource"]
           0 (Val tt).
Proof.
  intros forged plain. split; [reflexivity |].
  rewrite (authenticate_overrides_identity sample_shape
             (requirePermission "movies:read" sample_quiet) forged plain 0
             eq_refl eq_refl).
  reflexivity.
Defined.

(** ** The guards, one over the other *)

Section GuardRuns.
Context {S : Type} `{!World S}.
Lemma requireAuthenticatedUser_run (next : Handler S) (r : request) (s : S) (i : identity) :
  ctxUser r = Some i ->
  requireAuthenticatedUser next r s
  = if IsAnonymous i
    then Run [WriteHeader 401;
              WriteBytes "you must be authenticated to access this resource"]
             s (Val tt)
    else next r s.
Proof.
  intros H. unfold requireAuthenticatedUser, contextGetUser. rewrite H.
  erewrite bind_pure by reflexivity. by destruct (IsAnonymous i).
Qed.

Lemma requireActivatedUser_run (next : Handler S) (r : request) (s : S) (i : identity) :
  ctxUser r = Some i ->
  requireActivatedUser next r s
  = if IsAnonymous i
    then Run [WriteHeader 401;
              WriteBytes "you must be authenticated to access this resource"]
             s (Val tt)
    else if Activated (fields i) then next r s
    else Run [WriteHeader 403;
              WriteBytes "your user account must be activated to access this resource"]
             s (Val tt).
Proof.
  intros H. unfold requireActivatedUser.
  rewrite (requireAuthenticatedUser_run _ r s i H).
  destruct (IsAnonymous i); [done |].
  unfold contextGetUser. rewrite H. erewrite bind_pure by reflexivity.
  by destruct (Activated (fields i)).
Qed.

Lemma requirePermission_run (next : Handler S) (code : string)
    (r : request) (s : S)
    (i : identity) :
  ctxUser r = Some i ->
  requirePermission code next r s
  = if IsAnonymous i
    then Run [WriteHeader 401;
              WriteBytes "you must be authenticated to access this resource"]
             s (Val tt)
    else if Activated (fields i) then
      match Permissions_answer s (ID (fields i)) with
      | inr err =>
          Run [GetAllForUser (ID (fields i)); LogError (Error err) [];
               WriteHeader 500;
               WriteBytes "the server encountered a problem and could not process your request"]
              s (Val tt)
      | inl permissions =>
          if Include permissions code
          then after [GetAllForUser (ID (fields i))] (next r s)
          else Run [GetAllForUser (ID (fields i)); WriteHeader 403;
                    WriteBytes "your user account doesn't have the necessary permissions to access this resource"]
                   s (Val tt)
      end
    else Run [WriteHeader 403;
              WriteBytes "your user account must be activated to access this resource"]
             s (Val tt).
Proof.
  intros H. unfold requirePermission.
  rewrite (requireActivatedUser_run _ r s i H).
  destruct (IsAnonymous i); [done |].
  destruct (Activated (fields i)); [| done].
  unfold contextGetUser. rewrite H. erewrite bind_pure by reflexivity.
  rewrite bind_unfold. unfold Permissions_GetAllForUser. cbn [out trace final].
  destruct (Permissions_answer s (ID (fields i))) as [permissions | err];
    [| done].
  by destruct (Include permissions code).
Qed.
End GuardRuns.

(** X9.  The three guards are layered: whenever a weaker guard refuses, the
    stronger ones refuse with the very same response.  An anonymous request
    gets the authentication-required response from all three; a user who is
    not activated passes [requireAuthenticatedUser] and gets the
    inactive-account response from the other two; an activated user passes
    the first two, and only [requirePermission] asks for the permissions. *)
Theorem guards_layered {S} `{!World S} (code : string) (next : Handler S)
    (r : request) (s : S) (i : identity) :
  ctxUser r = Some i ->
  (IsAnonymous i = true ->
     requireActivatedUser next r s = requireAuthenticatedUser next r s
     /\ requirePermission code next r s = requireAuthenticatedUser next r s
     /\ committed (trace (requireAuthenticatedUser next r s)) = Some 401)
  /\ (IsAnonymous i = false -> Activated (fields i) = false ->
      requireAuthenticatedUser next r s = next r s
      /\ requirePermission code next r s = requireActivatedUser next r s
      /\ committed (trace (requireActivatedUser next r s)) = Some 403)
  /\ (IsAnonymous i = false -> Activated (fields i) = true ->
      requireAuthenticatedUser next r s = next r s
      /\ requireActivatedUser next r s = next r s
      /\ exists rest,
           trace (requirePermission code next r s)
           = GetAllForUser (ID (fields i)) :: rest).
Proof.
  intros H.
  rewrite (requirePermission_run next code r s i H),
    (requireActivatedUser_run next r s i H),
    (requireAuthenticatedUser_run next r s i H).
  split; [| split].
  - intros ->. done.
  - intros -> ->. done.
  - intros -> ->. split; [done |]. split; [done |].
    destruct (Permissions_answer s (ID (fields i))) as [permissions | err].
    + destruct (Include permissions code); by eexists.
    + by eexists.
Qed.

Lemma guards_layered_witness :
  let r := sample_with_header "GET" "Accept" "*/*"
             (Some (Authenticated {| ID := 9; Activated := false |})) in
  ctxUser r = Some (Authenticated {| ID := 9; Activated := false |})
  /\ requireAuthenticatedUser sample_quiet r 0 = sample_quiet r 0
  /\ requirePermission "movies:read" sample_quiet r 0
     = requireActivatedUser sample_quiet r 0
  /\ committed (trace (requireActivatedUser sample_quiet r 0)) = Some 403.
Proof.
  intros r. split; [reflexivity |].
  apply (proj1 (proj2 (guards_layered "movies:read" sample_quiet r 0
                         (Authenticated {| ID := 9; Activated := false |})
                         eq_refl))); reflexivity.
Defined.

(** X10.  From the header to the protected handler: for a well-formed
    bearer header whose token resolves to a user and whose permissions the
    store returns, [authenticate] around [requirePermission code] runs the
    protected handler, on the request carrying that user, exactly when the
    user is activated and holds [code]; otherwise the answer is the
    inactive-account or the not-permitted response.  The permissions are
    asked for the identifier of the very user the token resolved to. *)
Theorem authenticate_then_requirePermission {S} `{!World S}
    (ValidateTokenPlaintext : string -> bool) (code : string)
    (next : Handler S) (r : request) (s : S) (token : string) (u : User)
    (permissions : Permissions) :
  Header_Get (Headers r) "Authorization" = ("Bearer " ++ token)%string ->
  spaces token = 0%nat ->
  ValidateTokenPlaintext token = true ->
  Users_answer s "authentication" token = inl u ->
  Permissions_answer s (ID u) = inl permissions ->
  authenticate ValidateTokenPlaintext (requirePermission code next) r s
  = if Activated u then
      if Include permissions code then
        after [HeaderAdd "Vary" "Authorization";
               GetForToken "authentication" token; GetAllForUser (ID u)]
              (next (contextSetUser r (Authenticated u)) s)
      else
        Run [HeaderAdd "Vary" "Authorization";
             GetForToken "authentication" token; GetAllForUser (ID u);
             WriteHeader 403;
             WriteBytes "your user account doesn't have the necessary permissions to access this resource"]
            s (Val tt)
    else
      Run [HeaderAdd "Vary" "Authorization";
           GetForToken "authentication" token; WriteHeader 403;
           WriteBytes "your user account must be activated to access this resource"]
          s (Val tt).
Proof.
  intros Hh Hsp Hv Hu Hp.
  assert (Hne : Header_Get (Headers r) "Authorization" ≠ "")
    by (rewrite Hh; discriminate).
  rewrite (authenticate_lookup ValidateTokenPlaintext _ r s token Hne);
    [| by rewrite Hh, Split_Bearer, Split_no_space | done].
  unfold ScopeAuthentication. rewrite Hu.
  rewrite (requirePermission_run next code
             (contextSetUser r (Authenticated u)) s (Authenticated u) eq_refl).
  cbn [IsAnonymous fields]. destruct (Activated u); [| done].
  rewrite Hp. by destruct (Include permissions code).
Qed.

Lemma authenticate_then_requirePermission_witness :
  let r := sample_with_header "GET" "Authorization"
             "Bearer ABCDEFGHIJKLMNOPQRSTUVWXYZ" None in
  (spaces sample_token = 0%nat /\ sample_shape sample_token = true)
  /\ authenticate sample_shape (requirePermission "movies:write" sample_quiet)
       r 0
     = Run [HeaderAdd "Vary" "Authorization";
            GetForToken "authentication" sample_token; GetAllForUser 7;
            WriteHeader 403;
            WriteBytes "your user account doesn't have the necessary permissions to access this resource"]
           0 (Val tt).
Proof.
  intros r. split; [split; reflexivity |].
  apply (authenticate_then_requirePermission sample_shape "movies:write"
           sample_quiet r 0 sample_token sample_user ["movies:read"]);
    reflexivity.
Defined.

(** X11.  Behind [authenticate] a guard always finds an identity in the
    context: the only panic that can come out of [authenticate] around
    [requirePermission code] is a panic of the protected handler itself. *)
Theorem guards_behind_authenticate_never_panic {S} `{!World S}
    (ValidateTokenPlaintext : string -> bool) (code : string)
    (next : Handler S) (r : request) (s : S) (v : string) :
  out (authenticate ValidateTokenPlaintext (requirePermission code next) r s)
  = Panicked v ->
  exists r', out (next r' s) = Panicked v.
Proof.
  intros Hp.
  destruct (authenticate_cases ValidateTokenPlaintext
              (requirePermission code next) r s)
    as [[_ E] | [(_ & _ & E) | (tok & _ & _ & _ & E)]];
    rewrite E in Hp; clear E.
  - rewrite (requirePermission_run next code
               (contextSetUser r AnonymousUser) s AnonymousUser eq_refl) in Hp.
    discriminate Hp.
  - discriminate Hp.
  - destruct (Users_answer s ScopeAuthentication tok) as [u | err].
    + rewrite (requirePermission_run next code
                 (contextSetUser r (Authenticated u)) s (Authenticated u)
                 eq_refl) in Hp.
      cbn [IsAnonymous fields after out] in Hp.
      destruct (Activated u); [| discriminate Hp].
      destruct (Permissions_answer s (ID u)) as [permissions | e];
        [| discriminate Hp].
      destruct (Include permissions code); [| discriminate Hp].
      exists (contextSetUser r (Authenticated u)). exact Hp.
    + destruct (errors_Is_ErrRecordNotFound err); discriminate Hp.
Qed.

Lemma guards_behind_authenticate_never_panic_witness :
  let r := sample_with_header "GET" "Authorization"
             "Bearer ABCDEFGHIJKLMNOPQRSTUVWXYZ" None in
  out (authenticate sample_shape
         (requirePermission "movies:read" sample_panicking) r 0)
  = Panicked "boom"
  /\ exists r', out (sample_panicking r' 0) = Panicked "boom".
Proof.
  intros r.
  assert (H : out (authenticate sample_shape
                     (requirePermission "movies:read" sample_panicking) r 0)
              = Panicked "boom") by reflexivity.
  split; [exact H |].
  exact (guards_behind_authenticate_never_panic sample_shape "movies:read"
           sample_panicking r 0 "boom" H).
Defined.

(** ** enableCORS: the other ways through *)

Section CORSCases.
Context {S : Type}.

Lemma enableCORS_loop_simple (r : request) (origin : string)
    (origins : list string) (s : S) :
  In origin origins ->
  Method r ≠ "OPTIONS"
  \/ Header_Get (Headers r) "Access-Control-Request-Method" = "" ->
  enableCORS_loop r origin origins s
  = Run [HeaderSet "Access-Control-Allow-Origin" origin] s (Val false).
Proof.
  intros Hin Hsimple.
  assert (Hb : String.eqb (Method r) MethodOptions
               && negb (String.eqb
                    (Header_Get (Headers r) "Access-Control-Request-Method") "")
               = false).
  { destruct Hsimple as [Hm | Hh].
    - apply String.eqb_neq in Hm. unfold MethodOptions. by rewrite Hm.
    - rewrite Hh. by rewrite andb_false_r. }
  induction origins as [|o rest IH]; [destruct Hin |]. cbn [enableCORS_loop].
  destruct (String.eqb_spec origin o) as [-> | Hne].
  - rewrite Hb. reflexivity.
  - apply IH. destruct Hin as [-> | Hin]; [done | exact Hin].
Qed.

Variable trustedOrigins : list string.
Variable next : Handler S.

Lemma enableCORS_run_simple (r : request) (s : S) :
  Header_Get (Headers r) "Origin" ≠ "" ->
  In (Header_Get (Headers r) "Origin") trustedOrigins ->
  Method r ≠ "OPTIONS"
  \/ Header_Get (Headers r) "Access-Control-Request-Method" = "" ->
  enableCORS trustedOrigins next r s
  = after [HeaderAdd "Vary" "Origin";
           HeaderAdd "Vary" "Access-Control-Request-Method";
           HeaderSet "Access-Control-Allow-Origin"
                     (Header_Get (Headers r) "Origin")] (next r s).
Proof.
  intros Hne Hin Hsimple. unfold enableCORS.
  apply String.eqb_neq in Hne. rewrite Hne. cbn [negb].
  do 2 rewrite bind_emit.
  rewrite bind_unfold.
  rewrite (enableCORS_loop_simple r _ trustedOrigins s Hin Hsimple).
  reflexivity.
Qed.

Lemma enableCORS_run_preflight (r : request) (s : S) :
  Header_Get (Headers r) "Origin" ≠ "" ->
  In (Header_Get (Headers r) "Origin") trustedOrigins ->
  Method r = "OPTIONS" ->
  Header_Get (Headers r) "Access-Control-Request-Method" ≠ "" ->
  enableCORS trustedOrigins next r s
  = Run [HeaderAdd "Vary" "Origin";
         HeaderAdd "Vary" "Access-Control-Request-Method";
         HeaderSet "Access-Control-Allow-Origin"
                   (Header_Get (Headers r) "Origin");
         HeaderSet "Access-Control-Allow-Methods" "OPTIONS, PUT, PATCH, DELETE";
         HeaderSet "Access-Control-Allow-Headers" "Authorization, Content-Type";
         WriteHeader 200] s (Val tt).
Proof.
  intros Hne Hin Hm Hh. unfold enableCORS.
  apply String.eqb_neq in Hne. rewrite Hne. cbn [negb].
  do 2 rewrite bind_emit.
  rewrite bind_unfold.
  rewrite (enableCORS_loop_preflight r _ trustedOrigins s Hin Hm Hh).
  reflexivity.
Qed.

Lemma enableCORS_run_untrusted (r : request) (s : S) :
  Header_Get (Headers r) "Origin" = ""
  \/ ¬ In (Header_Get (Headers r) "Origin") trustedOrigins ->
  enableCORS trustedOrigins next r s
  = after [HeaderAdd "Vary" "Origin";
           HeaderAdd "Vary" "Access-Control-Request-Method"] (next r s).
Proof.
  intros Hu. unfold enableCORS. do 2 rewrite bind_emit. rewrite bind_unfold.
  destruct (String.eqb_spec (Header_Get (Headers r) "Origin") "") as [He | Hne];
    cbn [negb].
  - cbn. by destruct (next r s).
  - destruct Hu as [He | Hn]; [done |].
    rewrite (enableCORS_loop_untrusted r _ trustedOrigins s Hn).
    cbn. by destruct (next r s).
Qed.
End CORSCases.

(** X12.  A request from a trusted origin that is not a preflight request
    (another method than OPTIONS, or no [Access-Control-Request-Method]
    header) gets the two [Vary] headers and the allow-origin header, set
    once even when the origin is listed twice, and then the downstream
    handler runs; no status is written by this stage. *)
Theorem enableCORS_trusted_request {S} (trustedOrigins : list string)
    (next : Handler S) (r : request) (s : S) :
  let origin := Header_Get (Headers r) "Origin" in
  origin ≠ "" -> In origin trustedOrigins ->
  Method r ≠ "OPTIONS"
  \/ Header_Get (Headers r) "Access-Control-Request-Method" = "" ->
  enableCORS trustedOrigins next r s
  = after [HeaderAdd "Vary" "Origin";
           HeaderAdd "Vary" "Access-Control-Request-Method";
           HeaderSet "Access-Control-Allow-Origin" origin] (next r s).
Proof.
  intros origin Hne Hin Hsimple. by apply enableCORS_run_simple.
Qed.

Lemma enableCORS_trusted_request_witness :
  let trusted := ["https://app.example.com"; "https://app.example.com"] in
  let r := {| Method := "OPTIONS";
              Headers := {[ "Origin" := ["https://app.example.com"] ]};
              ctxUser := None |} in
  (Header_Get (Headers r) "Origin" ≠ ""
   /\ Header_Get (Headers r) "Access-Control-Request-Method" = "")
  /\ enableCORS trusted sample_quiet r 0
     = Run [HeaderAdd "Vary" "Origin";
            HeaderAdd "Vary" "Access-Control-Request-Method";
            HeaderSet "Access-Control-Allow-Origin" "https://app.example.com"]
           0 (Val tt).
Proof.
  intros trusted r.
  assert (Hne : Header_Get (Headers r) "Origin" ≠ "")
    by (vm_compute; discriminate).
  split; [split; [exact Hne | reflexivity] |].
  apply (enableCORS_trusted_request trusted sample_quiet r 0 Hne).
  - left. reflexivity.
  - right. reflexivity.
Defined.

(** X13.  The stage never allows an origin that is not on the list: an
    allow-origin header in the run either was set downstream, or carries
    the request's own non-empty [Origin] value and that value is a trusted
    origin. *)
Theorem enableCORS_allows_only_trusted {S} (trustedOrigins : list string)
    (next : Handler S) (r : request) (s : S) (v : string) :
  In (HeaderSet "Access-Control-Allow-Origin" v)
     (trace (enableCORS trustedOrigins next r s)) ->
  (v = Header_Get (Headers r) "Origin" /\ v ≠ "" /\ In v trustedOrigins)
  \/ In (HeaderSet "Access-Control-Allow-Origin" v) (trace (next r s)).
Proof.
  intros Hin.
  destruct (decide (Header_Get (Headers r) "Origin" = "")) as [He | Hne].
  { right.
    rewrite (enableCORS_run_untrusted trustedOrigins next r s (or_introl He))
      in Hin.
    cbn [after trace app] in Hin.
    destruct Hin as [Hin | [Hin | Hin]];
      [discriminate Hin | discriminate Hin | exact Hin]. }
  destruct (in_dec string_dec (Header_Get (Headers r) "Origin") trustedOrigins)
    as [Ht | Hu]; cycle 1.
  { right.
    rewrite (enableCORS_run_untrusted trustedOrigins next r s (or_intror Hu))
      in Hin.
    cbn [after trace app] in Hin.
    destruct Hin as [Hin | [Hin | Hin]];
      [discriminate Hin | discriminate Hin | exact Hin]. }
  assert (Hrun : In (HeaderSet "Access-Control-Allow-Origin" v)
                    (HeaderSet "Access-Control-Allow-Origin"
                       (Header_Get (Headers r) "Origin") :: trace (next r s))).
  { destruct (decide (Method r = "OPTIONS")) as [Hm | Hm]; cycle 1.
    { rewrite (enableCORS_run_simple trustedOrigins next r s Hne Ht
                 (or_introl Hm)) in Hin.
      cbn [after trace app] in Hin.
      destruct Hin as [Hin | [Hin | Hin]];
        [discriminate Hin | discriminate Hin | exact Hin]. }
    destruct (decide (Header_Get (Headers r) "Access-Control-Request-Method"
                      = "")) as [Hh | Hh].
    { rewrite (enableCORS_run_simple trustedOrigins next r s Hne Ht
                 (or_intror Hh)) in Hin.
      cbn [after trace app] in Hin.
      destruct Hin as [Hin | [Hin | Hin]];
        [discriminate Hin | discriminate Hin | exact Hin]. }
    rewrite (enableCORS_run_preflight trustedOrigins next r s Hne Ht Hm Hh)
      in Hin.
    cbn [trace] in Hin.
    destruct Hin as [Hin | [Hin | [Hin | Hin]]];
      [discriminate Hin | discriminate Hin | by left | absent_from_trace Hin]. }
  destruct Hrun as [Heq | Hnext]; [| by right].
  injection Heq as <-. by left.
Qed.

Lemma enableCORS_allows_only_trusted_witness :
  let trusted := ["https://app.example.com"] in
  let downstream : Handler Z := fun _ =>
    emit (HeaderSet "Access-Control-Allow-Origin" "*") in
  let r := {| Method := "GET";
              Headers := {[ "Origin" := ["https://evil.example.com"] ]};
              ctxUser := None |} in
  In (HeaderSet "Access-Control-Allow-Origin" "*")
     (trace (enableCORS trusted downstream r 0))
  /\ In (HeaderSet "Access-Control-Allow-Origin" "*") (trace (downstream r 0)).
Proof.
  intros trusted downstream r.
  assert (Hin : In (HeaderSet "Access-Control-Allow-Origin" "*")
                   (trace (enableCORS trusted downstream r 0)))
    by (right; right; left; reflexivity).
  split; [exact Hin |].
  destruct (enableCORS_allows_only_trusted trusted downstream r 0 "*" Hin)
    as [(_ & _ & [H | []]) | H]; [discriminate H | exact H].
Defined.

(** ** metricsResponseWriter and metrics: what is recorded *)

Lemma committed_app (es es' : list event) :
  committed (es ++ es')
  = match committed es with Some c => Some c | None => committed es' end.
Proof.
  induction es as [|e es IH]; [done |]. destruct e; cbn; try done; exact IH.
Qed.

(** X14.  The wrapper hands every call on to the wrapped writer, unchanged
    and in order, and records the status that goes out: the code of the
    first [WriteHeader], or 200 when body bytes come first or nothing is
    written.  Once a status is recorded, no later call changes it. *)
Theorem metricsResponseWriter_records_first (es es' : list event) :
  (mw_calls es newMetricsResponseWriter).1 = es
  /\ statusCode (mw_calls es newMetricsResponseWriter).2
     = default 200 (committed es)
  /\ headerWritten (mw_calls es newMetricsResponseWriter).2
     = bool_decide (is_Some (committed es))
  /\ statusCode (mw_calls (es ++ es') newMetricsResponseWriter).2
     = match committed es with
       | Some code => code
       | None => statusCode (mw_calls es' newMetricsResponseWriter).2
       end.
Proof.
  split; [apply mw_calls_forward |]. split; [apply mw_calls_status |]. split.
  - assert (Hw : forall l mw, headerWritten mw = true ->
                   headerWritten (mw_calls l mw).2 = true).
    { induction l as [|e l IH]; intros mw Hmw; [done |]. cbn [mw_calls].
      destruct (mw_call e mw) as [e' mw1] eqn:Ec.
      assert (headerWritten mw1 = true) as H1.
      { destruct e; cbn in Ec; unfold mw_WriteHeader, mw_Write in Ec;
          try rewrite Hmw in Ec; inversion Ec; by subst. }
      specialize (IH mw1 H1). by destruct (mw_calls l mw1). }
    induction es as [|e es IH]; [done |].
    destruct e; cbn [mw_calls mw_call committed];
      try (destruct (mw_calls es newMetricsResponseWriter); exact IH).
    + pose proof (Hw es {| statusCode := code; headerWritten := true |} eq_refl)
        as H.
      unfold mw_WriteHeader. cbn [headerWritten newMetricsResponseWriter].
      clear IH. by destruct (mw_calls es _).
    + pose proof (Hw es {| statusCode := StatusOK; headerWritten := true |}
                    eq_refl) as H.
      unfold mw_Write. cbn [statusCode newMetricsResponseWriter].
      clear IH. by destruct (mw_calls es _).
  - rewrite !mw_calls_status, committed_app.
    by destruct (committed es).
Qed.

Section MetricsRuns.
Context {S : Type} `{!World S}.
Variable next : Handler S.

Lemma metrics_trace (r : request) (m : metricsVars) (s : S) :
  trace (metrics next r (m, s)) = trace (next r s).
Proof. rewrite metrics_run. cbn zeta. by destruct (out (next r s)). Qed.

Lemma metrics_out (r : request) (m : metricsVars) (s : S) :
  out (metrics next r (m, s)) = out (next r s).
Proof.
  rewrite metrics_run. cbn zeta. by destruct (out (next r s)) as [[]| |].
Qed.

Lemma metrics_final (r : request) (m : metricsVars) (s : S) :
  (final (metrics next r (m, s))).2 = final (next r s).
Proof. rewrite metrics_run. cbn zeta. by destruct (out (next r s)). Qed.

Lemma metrics_counted (r : request) (m : metricsVars) (s : S) :
  completed (metrics next r (m, s)) ->
  (final (metrics next r (m, s))).1
  = counted (status_of (metrics next r (m, s)))
            (time_Now (final (next r s)) - time_Now s) m.
Proof.
  unfold completed, status_of. rewrite metrics_trace, metrics_out.
  intros Hc. rewrite metrics_run. cbn zeta. by rewrite Hc.
Qed.

Lemma metrics_not_returned (r : request) (m : metricsVars) (s : S) :
  (forall a, out (next r s) ≠ Val a) ->
  (final (metrics next r (m, s))).1 = add_totalRequestsReceived 1 m.
Proof.
  intros Hn. rewrite metrics_run. cbn zeta.
  destruct (out (next r s)) as [a| |]; [by destruct (Hn a) | done | done].
Qed.
End MetricsRuns.

(** X15.  The metrics stage is invisible from both sides: the calls that
    reach the outer writer are the calls of the downstream handler, the
    state it leaves is the state the handler left, and the call ends the way
    the handler ended, a panic included. *)
Theorem metrics_transparent {S} `{!World S} (next : Handler S) (r : request)
    (m : metricsVars) (s : S) :
  trace (metrics next r (m, s)) = trace (next r s)
  /\ out (metrics next r (m, s)) = out (next r s)
  /\ (final (metrics next r (m, s))).2 = final (next r s).
Proof.
  split; [apply metrics_trace |]. split; [apply metrics_out |].
  apply metrics_final.
Qed.

(** [strconv.Itoa] gives different codes different keys. *)
Lemma Itoa_inj (a b : Z) : Itoa a = Itoa b -> a = b.
Proof.
  assert (Hback : forall z, NilZero.int_of_string (Itoa z) = Some (Z.to_int z)).
  { intros z. unfold Itoa. apply NilZero.isi.
    - destruct z as [|p|p]; cbn; [discriminate | | discriminate].
      intros [= Hnil]. by apply (DecimalPos.Unsigned.to_uint_nonnil p).
    - destruct z as [|p|p]; cbn; [discriminate | discriminate |].
      intros [= Hnil]. by apply (DecimalPos.Unsigned.to_uint_nonnil p). }
  intros H. pose proof (Hback a) as Ha. rewrite H, Hback in Ha.
  injection Ha as Ha.
  rewrite <- (DecimalZ.of_to a), <- (DecimalZ.of_to b). by rewrite Ha.
Qed.

Lemma count_key_nonneg {S A} (key : string) (runs : list (run S A)) :
  0 <= count_key key runs.
Proof.
  induction runs as [|res rest IH]; cbn [count_key]; [lia |].
  destruct (String.eqb _ _); lia.
Qed.

Lemma count_key_Itoa {S A} (code : Z) (runs : list (run S A)) :
  count_key (Itoa code) runs = count_status code runs.
Proof.
  induction runs as [|res rest IH]; [done |]. cbn [count_key count_status].
  rewrite IH. f_equal.
  destruct (Z.eqb_spec (status_of res) code) as [-> | Hne].
  - by rewrite String.eqb_refl.
  - destruct (String.eqb_spec (Itoa (status_of res)) (Itoa code)) as [He |];
      [| done].
    by destruct (Hne (Itoa_inj _ _ He)).
Qed.

Section MetricsByStatus.
Context {S : Type} `{!World S}.
Variable next : Handler S.

Lemma serve_metrics_by_status rs : forall m s kr,
  consistent kr kr m -> 0 <= kr -> kr + Z.of_nat (length rs) < 2 ^ 63 ->
  Forall completed (serve (metrics next) rs (m, s)).1 ->
  forall key,
    totalResponsesSentByStatus (serve (metrics next) rs (m, s)).2.1 !! key
    = if (count_key key (serve (metrics next) rs (m, s)).1 =? 0)%Z
      then totalResponsesSentByStatus m !! key
      else Some (default 0 (totalResponsesSentByStatus m !! key)
                 + count_key key (serve (metrics next) rs (m, s)).1).
Proof.
  induction rs as [|r rs IH]; intros m s kr Hc H0 Hb Hall key.
  - reflexivity.
  - rewrite serve_cons in *. cbn [length] in Hb. rewrite Nat2Z.inj_succ in Hb.
    destruct (out (metrics next r (m, s))) as [[]|v|] eqn:E;
      cbn [fst snd] in Hall |- *;
      apply Forall_cons in Hall as [Hhead Hall];
      [| unfold completed in Hhead; congruence
       | unfold completed in Hhead; congruence].
    pose proof (metrics_counted next r m s Hhead) as Hfin.
    set (code := status_of (metrics next r (m, s))) in *.
    set (d := time_Now (final (next r s)) - time_Now s) in *.
    destruct (final (metrics next r (m, s))) as [m1 s1] eqn:Ef.
    cbn [fst] in Hfin. subst m1.
    pose proof (consistent_counted kr kr code d m Hc ltac:(lia) ltac:(lia))
      as Hc1.
    rewrite (IH (counted code d m) s1 (kr + 1) Hc1 ltac:(lia) ltac:(lia) Hall key).
    cbn [count_key]. fold code.
    pose proof (count_key_nonneg key
                  (serve (metrics next) rs (counted code d m, s1)).1) as Hnn.
    set (c := count_key key (serve (metrics next) rs (counted code d m, s1)).1)
      in *.
    destruct Hc as (_ & _ & Htot & Hpos).
    pose proof (lookup_le_total (totalResponsesSentByStatus m) (Itoa code) Hpos)
      as Hle.
    assert (Hlook : totalResponsesSentByStatus (counted code d m) !! key
                    = if String.eqb (Itoa code) key
                      then Some (default 0 (totalResponsesSentByStatus m !! key) + 1)
                      else totalResponsesSentByStatus m !! key).
    { unfold counted. cbn. unfold expvar_Map_Add.
      destruct (String.eqb_spec (Itoa code) key) as [<- | Hne].
      - rewrite lookup_insert_eq. by rewrite wrap64_small by lia.
      - by rewrite lookup_insert_ne. }
    rewrite Hlook. clearbody c.
    destruct (String.eqb (Itoa code) key).
    + cbv iota. destruct (Z.eqb_spec c 0) as [Hc0 | Hc0];
        destruct (Z.eqb_spec (1 + c) 0) as [? | ?]; try lia; cbn [default];
        unfold id; apply (f_equal Some); lia.
    + by rewrite Z.add_0_l.
Qed.
End MetricsByStatus.

(** X16.  The per-status counters are exact, not only their sum: after the
    requests of a list went through the metrics stage and each completed,
    the counter stored under the decimal string of a status code is the
    number of requests that went out with that code, and a code that no
    request went out with has no key at all. *)
Theorem metrics_by_status_exact {S} `{!World S} (next : Handler S)
    (rs : list request) (s : S) (code : Z) :
  Z.of_nat (length rs) < 2 ^ 63 ->
  Forall completed (serve (metrics next) rs (newMetricsVars, s)).1 ->
  let runs := (serve (metrics next) rs (newMetricsVars, s)).1 in
  let m := (serve (metrics next) rs (newMetricsVars, s)).2.1 in
  default 0 (totalResponsesSentByStatus m !! Itoa code)
  = count_status code runs
  /\ (count_status code runs = 0 <->
      totalResponsesSentByStatus m !! Itoa code = None).
Proof.
  intros Hb Hall runs m.
  pose proof (serve_metrics_by_status next rs newMetricsVars s 0
                consistent_new ltac:(lia) ltac:(lia) Hall (Itoa code)) as H.
  fold m runs in H. rewrite count_key_Itoa in H.
  cbn [totalResponsesSentByStatus newMetricsVars] in H.
  rewrite lookup_empty in H. rewrite H.
  destruct (Z.eqb_spec (count_status code runs) 0) as [-> | Hne].
  - done.
  - split; [cbn [default]; unfold id; lia |]. split; [done | discriminate].
Qed.

Lemma metrics_by_status_exact_witness :
  let next : Handler Z := fun r =>
    if String.eqb (Method r) "GET" then emit (WriteBytes "{}")
    else emit (WriteHeader 405) in
  let post := {| Method := "POST"; Headers := ∅; ctxUser := None |} in
  let rs := [sample_request; post; sample_request] in
  let m := (serve (metrics next) rs (newMetricsVars, 0)).2.1 in
  Forall completed (serve (metrics next) rs (newMetricsVars, 0)).1
  /\ default 0 (totalResponsesSentByStatus m !! "200") = 2
  /\ default 0 (totalResponsesSentByStatus m !! "405") = 1
  /\ totalResponsesSentByStatus m !! "404" = None.
Proof.
  intros next post rs m.
  assert (Hall : Forall completed (serve (metrics next) rs (newMetricsVars, 0)).1)
    by (vm_compute; repeat constructor).
  split; [exact Hall |].
  pose proof (metrics_by_status_exact next rs 0) as H.
  split; [| split].
  - destruct (H 200 ltac:(vm_compute; reflexivity) Hall) as [H1 _].
    etransitivity; [exact H1 | vm_compute; reflexivity].
  - destruct (H 405 ltac:(vm_compute; reflexivity) Hall) as [H1 _].
    etransitivity; [exact H1 | vm_compute; reflexivity].
  - destruct (H 404 ltac:(vm_compute; reflexivity) Hall) as [_ H2].
    apply H2. vm_compute. reflexivity.
Defined.

(** ** metrics behind recoverPanic: the books *)

Section Accounting.
Context {S : Type} `{!World S}.
Variable next : Handler S.

Lemma count_returned_bounds (os : list (result unit)) :
  0 <= count_returned os <= Z.of_nat (length os).
Proof.
  induction os as [|o os IH]; cbn [count_returned length]; [lia |].
  rewrite Nat2Z.inj_succ. destruct o; lia.
Qed.

Lemma outcomes_length (rs : list request) (s : S) :
  length (outcomes next rs s) = length rs.
Proof.
  revert s. induction rs as [|r rs IH]; intros s; [done |].
  cbn [outcomes length]. by rewrite IH.
Qed.

Lemma serve_recovered_accounting rs : forall m s kr ks,
  consistent kr ks m -> 0 <= ks <= kr ->
  kr + Z.of_nat (length rs) < 2 ^ 63 ->
  length (serve (recoverPanic (metrics next)) rs (m, s)).1 = length rs
  /\ consistent (kr + Z.of_nat (length rs))
       (ks + count_returned (outcomes next rs s))
       (serve (recoverPanic (metrics next)) rs (m, s)).2.1.
Proof.
  induction rs as [|r rs IH]; intros m s kr ks Hc H0 Hb.
  - cbn. by rewrite !Z.add_0_r.
  - rewrite serve_cons. cbn [length outcomes count_returned] in *.
    rewrite Nat2Z.inj_succ in *.
    pose proof (recoverPanic_final (metrics next) r (m, s)) as Hfin.
    pose proof (metrics_final next r m s) as Hs.
    assert (Hm : consistent (kr + 1)
                   (ks + match out (next r s) with Val _ => 1 | _ => 0 end)
                   (final (metrics next r (m, s))).1).
    { destruct (out (next r s)) as [a| |] eqn:Eo.
      - assert (Hcomp : completed (metrics next r (m, s)))
          by (unfold completed; rewrite metrics_out, Eo; by destruct a).
        rewrite (metrics_counted next r m s Hcomp).
        apply consistent_counted; [done | lia | lia].
      - rewrite metrics_not_returned by (rewrite Eo; discriminate).
        rewrite Z.add_0_r. apply consistent_received; [done | lia | lia].
      - rewrite metrics_not_returned by (rewrite Eo; discriminate).
        rewrite Z.add_0_r. apply consistent_received; [done | lia | lia]. }
    destruct (final (metrics next r (m, s))) as [m1 s1] eqn:Ef.
    cbn [fst snd] in Hm, Hs. subst s1.
    pose proof (count_returned_bounds (outcomes next rs (final (next r s))))
      as Hcr.
    destruct (IH m1 (final (next r s)) (kr + 1)
                (ks + match out (next r s) with Val _ => 1 | _ => 0 end) Hm)
      as [IH1 IH2]; [destruct (out (next r s)); lia | lia |].
    assert (Hgoal :
      length (recoverPanic (metrics next) r (m, s)
              :: (serve (recoverPanic (metrics next)) rs
                    (final (recoverPanic (metrics next) r (m, s)))).1)
      = Datatypes.S (length rs)
      /\ consistent (kr + Z.succ (Z.of_nat (length rs)))
           (ks + count_returned
                   (out (next r s) :: outcomes next rs (final (next r s))))
           (serve (recoverPanic (metrics next)) rs
              (final (recoverPanic (metrics next) r (m, s)))).2.1).
    { rewrite Hfin. cbn [length]. split; [by rewrite IH1 |].
      replace (kr + Z.succ (Z.of_nat (length rs)))
        with (kr + 1 + Z.of_nat (length rs)) by lia.
      replace (ks + count_returned
                 (out (next r s) :: outcomes next rs (final (next r s))))
        with (ks + match out (next r s) with Val _ => 1 | _ => 0 end
              + count_returned (outcomes next rs (final (next r s))));
        [exact IH2 |].
      cbn [count_returned]. destruct (out (next r s)); lia. }
    destruct (out (recoverPanic (metrics next) r (m, s))) as [a|v|] eqn:Eo;
      [exact Hgoal | | exact Hgoal].
    by destruct (recoverPanic_no_panic (metrics next) r (m, s) v).
Qed.
End Accounting.

(** X17.  With the metrics stage behind the recovery guard every request of
    a list is served, and from fresh counters the books are: received is
    the number of requests, sent and the sum of the per-status counters are
    the number of requests whose downstream handler returned.  The gap
    between received and sent is the number of requests whose handler
    panicked or never returned, and it never closes. *)
Theorem metrics_accounting {S} `{!World S} (next : Handler S)
    (rs : list request) (s : S) :
  Z.of_nat (length rs) < 2 ^ 63 ->
  let served := serve (recoverPanic (metrics next)) rs (newMetricsVars, s) in
  let returned := count_returned (outcomes next rs s) in
  length served.1 = length rs
  /\ totalRequestsReceived served.2.1 = Z.of_nat (length rs)
  /\ totalResponsesSent served.2.1 = returned
  /\ total (totalResponsesSentByStatus served.2.1) = returned
  /\ 0 <= returned <= Z.of_nat (length rs).
Proof.
  intros Hb served returned.
  destruct (serve_recovered_accounting next rs newMetricsVars s 0 0
              consistent_new ltac:(lia) ltac:(lia))
    as [Hlen (Hr & Hs & Ht & _)].
  fold served in Hlen, Hr, Hs, Ht. rewrite Z.add_0_l in *.
  fold returned in Hs, Ht.
  split; [exact Hlen |]. split; [exact Hr |]. split; [exact Hs |].
  split; [exact Ht |].
  pose proof (count_returned_bounds (outcomes next rs s)) as Hcr.
  rewrite outcomes_length in Hcr. exact Hcr.
Qed.

Lemma metrics_accounting_witness :
  let next : Handler Z := fun r =>
    if String.eqb (Method r) "GET" then emit (WriteBytes "{}")
    else panic "boom" in
  let post := {| Method := "POST"; Headers := ∅; ctxUser := None |} in
  let rs := [sample_request; post; sample_request; post] in
  let served := serve (recoverPanic (metrics next)) rs (newMetricsVars, 0) in
  Z.of_nat (length rs) < 2 ^ 63
  /\ length served.1 = 4%nat
  /\ totalRequestsReceived served.2.1 = 4
  /\ totalResponsesSent served.2.1 = 2.
Proof.
  intros next post rs served.
  assert (Hb : Z.of_nat (length rs) < 2 ^ 63) by (vm_compute; reflexivity).
  split; [exact Hb |].
  destruct (metrics_accounting next rs 0 Hb) as (H1 & H2 & H3 & _).
  split; [exact H1 |]. split; [exact H2 | exact H3].
Defined.

(** ** recoverPanic once more *)

(** X18.  A second recovery guard around the first changes nothing, and a
    guard around a handler that does not panic is that handler: the guard
    only ever acts on a panic. *)
Theorem recoverPanic_idempotent {S} (next : Handler S) (r : request) (s : S) :
  recoverPanic (recoverPanic next) r s = recoverPanic next r s
  /\ (forall deferred, recover (recoverPanic next r) deferred s
                       = recoverPanic next r s)
  /\ match out (next r s) with
     | Panicked _ => True
     | _ => recoverPanic next r s = next r s
     end.
Proof.
  assert (Hrec : forall deferred,
             recover (recoverPanic next r) deferred s = recoverPanic next r s).
  { intros deferred. unfold recover at 1.
    destruct (out (recoverPanic next r s)) as [a|v|] eqn:E; [done | | done].
    by destruct (recoverPanic_no_panic next r s v). }
  split; [apply Hrec |]. split; [exact Hrec |].
  destruct (out (next r s)) as [a|v|] eqn:E; [| done |].
  - by apply (recoverPanic_returned next r s a).
  - by apply recoverPanic_blocked.
Qed.

(** ** metrics around rateLimit *)

(** X19.  A request that the rate limiter refuses is still counted by a
    metrics stage placed around it: received and sent both move, and the
    response is counted under status 429, with no processing time when the
    clock did not move. *)
Theorem metrics_counts_refusal {S} `{!World S} (rps : Q) (burst : Z)
    (realip_FromRequest : request -> string) (next : Handler S)
    (r : request) (m : metricsVars) (reg : registry) (s : S) :
  let h := rateLimit true rps burst realip_FromRequest next in
  denied s (h r (reg, s)) ->
  let res := metrics h r (m, (reg, s)) in
  trace res = [WriteHeader 429; WriteBytes "rate limit exceeded"]
  /\ out res = Val tt
  /\ (final res).1 = counted 429 0 m
  /\ totalResponsesSentByStatus (final res).1
     = expvar_Map_Add "429" 1 (totalResponsesSentByStatus m).
Proof.
  intros h (Ht & Ho & Hs) res.
  assert (Hc : completed res)
    by (unfold completed, res; by rewrite metrics_out).
  assert (Hfin : (final res).1 = counted 429 0 m).
  { unfold res. rewrite (metrics_counted h r m (reg, s) Hc).
    unfold status_of. rewrite metrics_trace, Ht.
    cbn [time_Now World_captured]. rewrite Hs, Z.sub_diag. reflexivity. }
  split; [unfold res; by rewrite metrics_trace |].
  split; [exact Hc |]. split; [exact Hfin |]. by rewrite Hfin.
Qed.

Lemma metrics_counts_refusal_witness :
  let h := rateLimit true 1 1 sample_realip sample_quiet in
  let reg := (final (h sample_request (newRegistry, 0))).1 in
  let res := metrics h sample_request (newMetricsVars, (reg, 0)) in
  denied 0 (h sample_request (reg, 0))
  /\ out res = Val tt
  /\ totalResponsesSentByStatus (final res).1 !! "429" = Some 1.
Proof.
  intros h reg res.
  assert (Hd : denied 0 (h sample_request (reg, 0)))
    by (vm_compute; repeat split).
  split; [exact Hd |].
  destruct (metrics_counts_refusal 1 1 sample_realip sample_quiet
              sample_request newMetricsVars reg 0 Hd) as (_ & Ho & _ & Hb).
  split; [exact Ho |]. fold h res in Hb. rewrite Hb. reflexivity.
Defined.

(** X20.  A request that arrives while the mutex is held is counted as
    received by a metrics stage around the limiter and never as sent: the
    call does not return, nothing is written, and the other counters stay
    as they were. *)
Theorem metrics_counts_parked_request {S} `{!World S} (rps : Q) (burst : Z)
    (realip_FromRequest : request -> string) (next : Handler S)
    (r : request) (m : metricsVars) (reg : registry) (s : S) :
  mu reg = true ->
  metrics (rateLimit true rps burst realip_FromRequest next) r (m, (reg, s))
  = Run [] (add_totalRequestsReceived 1 m, (reg, s)) Blocked.
Proof.
  intros Hmu. rewrite metrics_run. cbn zeta.
  by rewrite (rateLimit_blocked rps burst realip_FromRequest next r reg s Hmu).
Qed.

Lemma metrics_counts_parked_request_witness :
  mu (reg sample_process) = true
  /\ metrics (rateLimit true 2 4 sample_realip sample_quiet) sample_request
       (newMetricsVars, (reg sample_process, world sample_process))
     = Run [] (add_totalRequestsReceived 1 newMetricsVars,
               (reg sample_process, world sample_process)) Blocked.
Proof.
  assert (Hmu : mu (reg sample_process) = true) by (vm_compute; reflexivity).
  split; [exact Hmu |].
  exact (metrics_counts_parked_request 2 4 sample_realip sample_quiet
           sample_request newMetricsVars (reg sample_process)
           (world sample_process) Hmu).
Defined.

(** ** rateLimit: the rate *)

Lemma Seconds_sub (a b : Z) : (Seconds (a - b) == Seconds a - Seconds b)%Q.
Proof. unfold Seconds, Qeq, Qminus, Qplus, Qopp. cbn. lia. Qed.

Lemma Seconds_le (a b : Z) : a <= b -> (Seconds a <= Seconds b)%Q.
Proof. intros H. unfold Seconds, Qle. cbn. lia. Qed.

Lemma advance_bounds (lim : Limiter) (t : Z) :
  lim_last lim <= t ->
  (advance lim t <= inject_Z (lim_burst lim))%Q
  /\ (advance lim t
      <= lim_tokens lim
         + (Seconds t - Seconds (lim_last lim)) * lim_limit lim)%Q.
Proof.
  intros Hl. unfold advance.
  destruct (Z.ltb_spec t (lim_last lim)) as [Hlt | _]; [lia |].
  pose proof (Seconds_sub t (lim_last lim)) as Hs.
  destruct (Qle_bool _ _) eqn:E.
  - apply Qle_bool_iff in E. split; [lra |]. rewrite <- Hs. exact E.
  - apply Qle_bool_false in E. split; [lra |]. rewrite <- Hs. lra.
Qed.

Lemma ascending_from_le (t t' : Z) (ts : list Z) :
  t' <= t -> ascending_from t ts -> ascending_from t' ts.
Proof. destruct ts as [|u ts]; [done |]. intros H [H1 H2]. split; [lia | done]. Qed.

Lemma is_refusal_refused {S} (st : registry * S) :
  is_refusal (Run [WriteHeader 429; WriteBytes "rate limit exceeded"] st (Val tt))
  = true.
Proof. reflexivity. Qed.

Section RateBound.
Context {S : Type} `{!World S}.
Variable rps : Q.
Variable burst : Z.
Variable realip_FromRequest : request -> string.
Variable next : Handler S.
Variable ip : string.
Variable t1 : Z.

Let handler := rateLimit true rps burst realip_FromRequest next.
Let budget := within_budget rps burst ip t1.

Hypothesis rps_nonneg : (0 <= rps)%Q.

Lemma budget_check (r : request) (s : S) (reg : registry) (A L : Z) :
  budget A L reg ->
  realip_FromRequest r = ip -> L <= time_Now s ->
  exists L',
    L <= L' <= time_Now s
    /\ budget (A + (if is_refusal (handler r (reg, s)) then 0 else 1)) L'
         (final (handler r (reg, s))).1.
Proof.
  intros (Hmu & c & Hc & Hlim & Hbur & Hlast & Ht0 & Htb & Hbud) Hip Ht.
  unfold handler. rewrite rateLimit_check by done. rewrite Hip, Hc.
  cbn [default from_option id].
  assert (Hlt : lim_last (limiter c) <= time_Now s) by (rewrite Hlast; lia).
  destruct (advance_bounds (limiter c) (time_Now s) Hlt) as [Hab Hat].
  rewrite Hbur in Hab. rewrite Hlim, Hlast in Hat.
  unfold Allow. destruct (Qle_bool 1 (advance (limiter c) (time_Now s))) eqn:E;
    cbn [fst snd].
  - apply Qle_bool_iff in E.
    exists (time_Now s). split; [lia |]. split; [done |].
    eexists. cbn [final fst clients]. rewrite lookup_insert_eq.
    split; [done |]. cbn [limiter lim_limit lim_burst lim_last lim_tokens].
    split; [done |]. split; [done |]. split; [done |].
    split; [lra |]. split; [lra |].
    assert (inject_Z (A + (if is_refusal
              {| trace := trace (next r s);
                 final := ({| mu := false;
                              clients := <[ip := {|
                                limiter := {| lim_limit := lim_limit (limiter c);
                                              lim_burst := lim_burst (limiter c);
                                              lim_tokens := advance (limiter c) (time_Now s) - 1;
                                              lim_last := time_Now s |};
                                lastSeen := time_Now s |}]> (clients reg) |},
                           final (next r s));
                 out := out (next r s) |} then 0 else 1))
            <= inject_Z A + 1)%Q as Hd.
    { rewrite inject_Z_plus. destruct (is_refusal _).
      - change (inject_Z 0) with 0%Q. lra.
      - change (inject_Z 1) with 1%Q. lra. }
    lra.
  - apply Qle_bool_false in E.
    exists L. split; [lia |]. rewrite is_refusal_refused, Z.add_0_r.
    split; [done |]. exists {| limiter := limiter c; lastSeen := time_Now s |}.
    cbn [final fst clients]. rewrite lookup_insert_eq.
    split; [done |]. cbn [limiter]. done.
Qed.

Lemma budget_checks (arrivals : list (request * S)) : forall reg A L T,
  budget A L reg ->
  Forall (fun a => realip_FromRequest a.1 = ip) arrivals ->
  ascending_from L (map (fun a => time_Now a.2) arrivals) ->
  L <= T -> Forall (fun a => time_Now a.2 <= T) arrivals ->
  (inject_Z (A + count_let_through (checks handler arrivals reg).1)
   <= inject_Z burst + (Seconds T - Seconds t1) * rps)%Q.
Proof.
  induction arrivals as [|[r s] rest IH]; intros reg A L T Hb Hip Hasc HT HallT.
  - cbn [checks fst count_let_through]. rewrite Z.add_0_r.
    destruct Hb as (_ & c & _ & _ & _ & _ & Ht0 & _ & Hbud).
    pose proof (Seconds_le L T HT) as Hle.
    assert (0 <= (Seconds T - Seconds L) * rps)%Q
      by (apply Qmult_le_0_compat; lra).
    lra.
  - apply Forall_cons in Hip as [Hip0 Hip].
    apply Forall_cons in HallT as [HT0 HallT].
    cbn [map ascending_from fst snd] in Hasc, Hip0, HT0.
    destruct Hasc as [Hle Hasc].
    destruct (budget_check r s reg A L Hb Hip0 Hle) as (L' & HL' & Hb').
    cbn [checks].
    assert (HL'T : L' <= T) by lia.
    pose proof (IH (final (handler r (reg, s))).1 _ L' T Hb' Hip
                  (ascending_from_le _ _ _ (proj2 HL') Hasc) HL'T HallT)
      as Hrest.
    destruct (checks handler rest (final (handler r (reg, s))).1)
      as [runs reg'].
    cbn [fst count_let_through] in Hrest |- *.
    by rewrite Z.add_assoc.
Qed.
End RateBound.

(** X21.  The rate, for the token bucket as the spec describes it: from the
    first request of a client on, with arrival times that do not go back,
    the number of its requests that are not refused up to any time [T] is at
    most the burst plus the rate times the seconds elapsed since that first
    request, whatever the downstream handler does. *)
Theorem rateLimit_rate_bound {S} `{!World S} (rps : Q) (burst : Z)
    (realip_FromRequest : request -> string) (next : Handler S)
    (reg : registry) (ip : string) (r0 : request) (s0 : S)
    (rest : list (request * S)) (T : Z) :
  let h := rateLimit true rps burst realip_FromRequest next in
  mu reg = false -> clients reg !! ip = None ->
  1 <= burst -> (0 <= rps)%Q ->
  Forall (fun a => realip_FromRequest a.1 = ip) ((r0, s0) :: rest) ->
  ascending_from (time_Now s0) (map (fun a => time_Now a.2) rest) ->
  Forall (fun a => time_Now a.2 <= T) ((r0, s0) :: rest) ->
  (inject_Z (count_let_through (checks h ((r0, s0) :: rest) reg).1)
   <= inject_Z burst + Seconds (T - time_Now s0) * rps)%Q.
Proof.
  intros h Hmu Hnone Hb Hr Hip Hasc HT.
  apply Forall_cons in Hip as [Hip0 Hip]. cbn [fst] in Hip0.
  apply Forall_cons in HT as [HT0 HT]. cbn [snd] in HT0.
  assert (Hfirst : within_budget rps burst ip (time_Now s0)
                     (if is_refusal (h r0 (reg, s0)) then 0 else 1)
                     (time_Now s0) (final (h r0 (reg, s0))).1).
  { unfold h. rewrite rateLimit_check by done. rewrite Hip0, Hnone.
    cbn [default from_option id limiter].
    pose proof (advance_new rps burst (time_Now s0) Hr) as Hadv.
    assert (1 <= inject_Z burst)%Q as H1.
    { change 1%Q with (inject_Z 1). rewrite <- Zle_Qle. lia. }
    rewrite Allow_admits by lra. cbn [fst snd final clients].
    split; [done |]. eexists. cbn [clients]. rewrite lookup_insert_eq.
    split; [done |].
    cbn [limiter lim_limit lim_burst lim_last lim_tokens NewLimiter].
    split; [done |]. split; [done |]. split; [done |].
    split; [lra |]. split; [lra |].
    destruct (is_refusal _).
    - change (inject_Z 0) with 0%Q. lra.
    - change (inject_Z 1) with 1%Q. lra. }
  pose proof (budget_checks rps burst realip_FromRequest next ip (time_Now s0)
                Hr rest _ _ (time_Now s0) T Hfirst Hip Hasc HT0 HT) as Hrest.
  cbn [checks]. fold h in Hrest |- *.
  destruct (checks h rest (final (h r0 (reg, s0))).1) as [runs reg'].
  cbn [fst count_let_through] in Hrest |- *.
  rewrite Seconds_sub. exact Hrest.
Qed.


Lemma rateLimit_rate_bound_witness :
  let h := rateLimit true 2 2 sample_realip (sample_quiet : Handler Z) in
  let at_ (t : Z) := (sample_request, t) in
  let rest := [at_ 0; at_ 0; at_ Second; at_ Second; at_ Second] in
  (ascending_from 0 (map (fun a : request * Z => a.2) rest)
   /\ Forall (fun a : request * Z => a.2 <= Second) (at_ 0 :: rest))
  /\ (inject_Z (count_let_through (checks h (at_ 0%Z :: rest) newRegistry).1)
      <= inject_Z 2 + Seconds (Second - 0)%Z * 2)%Q
  /\ count_let_through (checks h (at_ 0 :: rest) newRegistry).1 = 4.
Proof.
  intros h at_ rest.
  assert (Hasc : ascending_from 0 (map (fun a : request * Z => a.2) rest))
    by (vm_compute; repeat split; discriminate).
  assert (HT : Forall (fun a : request * Z => a.2 <= Second) (at_ 0 :: rest))
    by (repeat constructor; vm_compute; discriminate).
  assert (Hr : (0 <= 2)%Q) by (unfold Qle; vm_compute; discriminate).
  assert (Hb : 1 <= 2) by lia.
  assert (Hip : Forall (fun a : request * Z => sample_realip a.1 = sample_ip)
                  (at_ 0 :: rest)) by (repeat constructor).
  split; [split; [exact Hasc | exact HT] |]. split.
  - exact (rateLimit_rate_bound 2 2 sample_realip (sample_quiet : Handler Z)
             newRegistry sample_ip sample_request 0 rest Second
             eq_refl (lookup_empty _) Hb Hr Hip Hasc HT).
  - vm_compute. reflexivity.
Defined.
